(** * Meralco rates scraper: a shallow embedding of [meralco_rates/scraper.py]

    The development follows the Python module top to bottom:
    - [Py]        the fragments of the Python runtime the module relies on
                  (text methods, binary64 numbers, [float], [int]);
    - [Regex]     a backtracking matcher for the patterns handed to [re];
    - [Numeric]   [parse_negative];
    - [Net]       the effects (requests, sleeps, log) and [_fetch_with_retry];
    - [Discovery] the items both locators return, the choice of the PDF
                  link, month names and [strptime];
    - [Feed]      [fetch_latest_rss_item];
    - [Archive]   [fetch_historical_archive_items];
    - [Discover]  the discovery order of the archive, the reference for
                  the properties of the bounded crawl;
    - [Mapper]    [_build_column_index_map];
    - [Rows]      [extract_residential_rates] with its nested [_val].
    The vocabulary of the properties and the sample inputs come next, and
    then the properties, component by component.

    Text is modelled as [string] over 8-bit characters read as ASCII code
    points; Python floats are IEEE binary64 values ([spec_float] with
    precision 53 and maximal exponent 1024), parsed with correct rounding.
    What the module takes from outside is a parameter: the network is a
    function from the rank of a request and its URL to a body or an
    exception, the XML parser a function from a document to its [item]
    elements, and a PDF is the list of tables of each of its pages.  The
    two loops that Python does not bound (the attempts are bounded by
    [retries], the index pages of the archive are not) take their bound
    from the data or from a fuel argument. *)

From Stdlib Require Import ZArith List Bool Ascii String Lia.
From Stdlib Require Import Floats.SpecFloat.
From stdpp Require Import gmap strings list.

Local Open Scope string_scope.
Local Open Scope Z_scope.
#[local] Arguments String.append !_ _ / : simpl nomatch.

(* ===================================================================== *)
(** * Python runtime fragments *)
(* ===================================================================== *)

Module Py.

(** ** Exceptions and results *)

Inductive exn : Type :=
| ValueError
| IndexError
| TypeError
| HTTPError (code : Z)
| URLError
| TransportError
| Exception (msg : string).

Inductive result (A : Type) : Type :=
| Ok (a : A)
| Raise (e : exn).
Arguments Ok {A} a.
Arguments Raise {A} e.

(** ** Characters *)

Definition code (c : ascii) : Z := Z.of_N (N_of_ascii c).

Definition is_digit (c : ascii) : bool := (48 <=? code c) && (code c <=? 57).
Definition is_upper (c : ascii) : bool := (65 <=? code c) && (code c <=? 90).
Definition is_lower (c : ascii) : bool := (97 <=? code c) && (code c <=? 122).

(** [str.isspace] on the ASCII range, which is also what [\s] matches. *)
Definition is_space (c : ascii) : bool :=
  ((9 <=? code c) && (code c <=? 13)) || ((28 <=? code c) && (code c <=? 32)).

Definition lower_char (c : ascii) : ascii :=
  if is_upper c then ascii_of_N (Z.to_N (code c + 32)) else c.
Definition upper_char (c : ascii) : ascii :=
  if is_lower c then ascii_of_N (Z.to_N (code c - 32)) else c.

Definition ascii_eqb (a b : ascii) : bool := Ascii.eqb a b.

(** Membership of a character in a text, as in [c in chars]. *)
Fixpoint char_in (c : ascii) (chars : string) : bool :=
  match chars with
  | EmptyString => false
  | String d r => ascii_eqb c d || char_in c r
  end.

(** ** Text methods *)

Fixpoint smap (f : ascii -> ascii) (s : string) : string :=
  match s with
  | EmptyString => EmptyString
  | String c r => String (f c) (smap f r)
  end.

Definition lower (s : string) : string := smap lower_char s.
Definition upper (s : string) : string := smap upper_char s.

Definition len (s : string) : nat := String.length s.

(** Truth value of a text: non-empty. *)
Definition truthy (s : string) : bool :=
  match s with EmptyString => false | String _ _ => true end.

Definition startswith (s p : string) : bool := String.prefix p s.

Fixpoint drop (n : nat) (s : string) : string :=
  match n, s with
  | O, _ => s
  | S n', String _ r => drop n' r
  | S _, EmptyString => EmptyString
  end.

Fixpoint take (n : nat) (s : string) : string :=
  match n, s with
  | S n', String c r => String c (take n' r)
  | _, _ => EmptyString
  end.

Definition endswith (s p : string) : bool :=
  (len p <=? len s)%nat && String.eqb (drop (len s - len p) s) p.

(** [sub in s]. *)
Fixpoint contains (s sub : string) : bool :=
  String.prefix sub s ||
  match s with
  | EmptyString => false
  | String _ r => contains r sub
  end.

Fixpoint lstrip_by (p : ascii -> bool) (s : string) : string :=
  match s with
  | EmptyString => EmptyString
  | String c r => if p c then lstrip_by p r else s
  end.

Fixpoint rstrip_by (p : ascii -> bool) (s : string) : string :=
  match s with
  | EmptyString => EmptyString
  | String c r =>
      match rstrip_by p r with
      | EmptyString => if p c then EmptyString else String c EmptyString
      | r' => String c r'
      end
  end.

(** [s.strip()] and [s.strip(chars)]. *)
Definition strip (s : string) : string := rstrip_by is_space (lstrip_by is_space s).
Definition strip_chars (s chars : string) : string :=
  rstrip_by (fun c => char_in c chars) (lstrip_by (fun c => char_in c chars) s).

(** [s.replace(old, new)] for a non-empty [old]: occurrences are replaced
    left to right without overlap; [skip] counts the characters of an
    occurrence still to be dropped. *)
Fixpoint replace_from (skip : nat) (old new s : string) : string :=
  match s with
  | EmptyString => EmptyString
  | String c r =>
      match skip with
      | S k => replace_from k old new r
      | O =>
          if String.prefix old s
          then new ++ replace_from (len old - 1) old new r
          else String c (replace_from O old new r)
      end
  end.

Definition replace (s old new : string) : string := replace_from O old new s.

(** ** Integers: [int(text)] on a run of ASCII digits, and [str(n)] *)

Definition digit_val (c : ascii) : Z := code c - 48.

Fixpoint int_digits (acc : Z) (s : string) : Z :=
  match s with
  | EmptyString => acc
  | String c r => int_digits (10 * acc + digit_val c) r
  end.

Definition int_of (s : string) : Z := int_digits 0 s.

Definition digit_char (d : nat) : ascii := ascii_of_nat (48 + d).

Fixpoint show_nat_fuel (fuel n : nat) (acc : string) : string :=
  match fuel with
  | O => acc
  | S f =>
      let acc' := String (digit_char (n mod 10)) acc in
      if (n <? 10)%nat then acc' else show_nat_fuel f (n / 10) acc'
  end.

(** [str(n)] for a natural number. *)
Definition show_nat (n : nat) : string := show_nat_fuel (S n) n EmptyString.

(** ** binary64 *)

Definition float : Type := spec_float.
Definition prec : Z := 53.
Definition emax : Z := 1024.

Definition fzero : float := S754_zero false.
Definition fneg (x : float) : float := SFopp x.
Definition fadd (x y : float) : float := SFadd prec emax x y.
(** [x == y] *)
Definition feq (x y : float) : bool := SFeqb x y.

(** The binary64 nearest (ties to even) to [n / d], for [n >= 0], [d > 0]. *)
Definition float_of_ratio (neg : bool) (n d : Z) : float :=
  if n =? 0 then S754_zero neg
  else
    let '(q, e, l) := SFdiv_core_binary prec emax n 0 d 0 in
    binary_round_aux prec emax neg q e l.

(** ** [float(text)]

    The accepted syntax is the one of the language reference: optional
    surrounding whitespace, an optional sign, then [inf], [infinity] or
    [nan] in any letter case, or a decimal number with an optional
    exponent; digits may be grouped with single underscores. *)

(** digit (["_"] digit)*, continued after a first digit: the mantissa read
    so far, the number of digits read, and the rest of the text. *)
Fixpoint digitpart_rest (m : Z) (n : nat) (s : string) : Z * nat * string :=
  match s with
  | String c r =>
      if is_digit c then digitpart_rest (10 * m + digit_val c) (S n) r
      else if ascii_eqb c "_"
      then match r with
           | String d r' =>
               if is_digit d then digitpart_rest (10 * m + digit_val d) (S n) r'
               else (m, n, s)
           | EmptyString => (m, n, s)
           end
      else (m, n, s)
  | EmptyString => (m, n, s)
  end.

Definition digitpart (m : Z) (s : string) : option (Z * nat * string) :=
  match s with
  | String c r =>
      if is_digit c then Some (digitpart_rest (10 * m + digit_val c) 1 r) else None
  | EmptyString => None
  end.

(** number ::= [digitpart] "." digitpart | digitpart ["."] ; the result is
    the mantissa, the number of fraction digits, and the rest. *)
Definition number (s : string) : option (Z * nat * string) :=
  match digitpart 0 s with
  | Some (m, _, r) =>
      match r with
      | String "." r' =>
          match digitpart m r' with
          | Some (m', k, r'') => Some (m', k, r'')
          | None => Some (m, O, r')
          end
      | _ => Some (m, O, r)
      end
  | None =>
      match s with
      | String "." r' =>
          match digitpart 0 r' with
          | Some (m', k, r'') => Some (m', k, r'')
          | None => None
          end
      | _ => None
      end
  end.

(** exponent ::= ("e" | "E") ["+" | "-"] digitpart ; absent means 0. *)
Definition exponent (s : string) : option (Z * string) :=
  match s with
  | EmptyString => Some (0, s)
  | String c r =>
      if ascii_eqb c "e" || ascii_eqb c "E" then
        let '(neg, r1) :=
          match r with
          | String "+" t => (false, t)
          | String "-" t => (true, t)
          | _ => (false, r)
          end in
        match digitpart 0 r1 with
        | Some (e, _, r2) => Some (if neg then - e else e, r2)
        | None => None
        end
      else Some (0, s)
  end.

Definition py_float (text : string) : option float :=
  let s := strip text in
  let '(neg, body) :=
    match s with
    | String "+" t => (false, t)
    | String "-" t => (true, t)
    | _ => (false, s)
    end in
  let l := lower body in
  if String.eqb l "inf" || String.eqb l "infinity" then Some (S754_infinity neg)
  else if String.eqb l "nan" then Some S754_nan
  else
    match number body with
    | Some (m, k, r) =>
        match exponent r with
        | Some (e, EmptyString) =>
            let e10 := e - Z.of_nat k in
            Some (if 0 <=? e10
                  then float_of_ratio neg (m * 10 ^ e10) 1
                  else float_of_ratio neg m (10 ^ (- e10)))
        | _ => None
        end
    | None => None
    end.

End Py.
Export Py.

(* ===================================================================== *)
(** * Patterns of the [re] module *)
(* ===================================================================== *)

Module Regex.

(** The pattern language used by the scraper.  [Chr p] is a character
    class; flags are folded into the classes ([re.IGNORECASE] makes a
    literal letter match both cases, see [ci]).  [Star true] is the greedy
    star, [Star false] the lazy one; [Grp] is a capturing group. *)
Inductive re : Type :=
| Eps
| Chr (p : ascii -> bool)
| Cat (a b : re)
| Alt (a b : re)
| Star (greedy : bool) (a : re)
| Grp (a : re).

Definition Plus (a : re) : re := Cat a (Star true a).
Definition Opt (a : re) : re := Alt a Eps.

Definition cs (c : ascii) : re := Chr (ascii_eqb c).
Definition ci (c : ascii) : re := Chr (fun x => ascii_eqb (lower_char x) (lower_char c)).

(** A literal text, case-sensitive or not. *)
Fixpoint lit (s : string) : re :=
  match s with
  | EmptyString => Eps
  | String c EmptyString => cs c
  | String c r => Cat (cs c) (lit r)
  end.
Fixpoint lit_ci (s : string) : re :=
  match s with
  | EmptyString => Eps
  | String c EmptyString => ci c
  | String c r => Cat (ci c) (lit_ci r)
  end.

Fixpoint alts (l : list re) : re :=
  match l with
  | [] => Chr (fun _ => false)
  | [a] => a
  | a :: r => Alt a (alts r)
  end.

Fixpoint seqs (l : list re) : re :=
  match l with
  | [] => Eps
  | [a] => a
  | a :: r => Cat a (seqs r)
  end.

Fixpoint rep (n : nat) (a : re) : re :=
  match n with
  | O => Eps
  | 1%nat => a
  | S k => Cat a (rep k a)
  end.

Definition digit : re := Chr is_digit.
Definition space : re := Chr is_space.

Section Matcher.
Context {R : Type}.

(** Backtracking match of [r] at the head of [s].  [caps] holds the
    groups closed so far, [k] is what remains to be matched; the first
    alternative that lets [k] succeed wins, as in [re].  An iteration of
    a star that consumes nothing is cut, which bounds the loop by the
    length of the text. *)
Fixpoint rmatch (r : re) (s : string) (caps : list string)
         (k : string -> list string -> option R) {struct r} : option R :=
  match r with
  | Eps => k s caps
  | Chr p =>
      match s with
      | String c t => if p c then k t caps else None
      | EmptyString => None
      end
  | Cat a b => rmatch a s caps (fun s' caps' => rmatch b s' caps' k)
  | Alt a b =>
      match rmatch a s caps k with
      | Some x => Some x
      | None => rmatch b s caps k
      end
  | Grp a =>
      rmatch a s caps
        (fun s' caps' => k s' (caps' ++ [take (len s - len s') s])%list)
  | Star greedy a =>
      (fix loop (n : nat) (s : string) (caps : list string) : option R :=
         match n with
         | O => k s caps
         | S n' =>
             let more :=
               rmatch a s caps
                 (fun s' caps' =>
                    if (len s' <? len s)%nat then loop n' s' caps' else None) in
             if greedy then
               match more with
               | Some x => Some x
               | None => k s caps
               end
             else
               match k s caps with
               | Some x => Some x
               | None => more
               end
         end) (len s) s caps
  end.
End Matcher.

(** [re.match]: the groups of a match at the start of the text. *)
Definition rmatch_prefix (r : re) (s : string) : option (list string) :=
  rmatch r s [] (fun _ caps => Some caps).

(** [re.search]: the leftmost match; the result gives the text from the
    start of the match, the groups, and the text after the match. *)
Fixpoint search_from (r : re) (s : string) : option (string * list string * string) :=
  match rmatch r s [] (fun rest caps => Some (s, caps, rest)) with
  | Some x => Some x
  | None =>
      match s with
      | EmptyString => None
      | String _ t => search_from r t
      end
  end.

Definition search (r : re) (s : string) : option (list string) :=
  match search_from r s with
  | Some (_, caps, _) => Some caps
  | None => None
  end.

(** [re.findall]: the groups of the successive non-overlapping matches. *)
Fixpoint findall_fuel (fuel : nat) (r : re) (s : string) : list (list string) :=
  match fuel with
  | O => []
  | S f =>
      match search_from r s with
      | None => []
      | Some (from, caps, rest) =>
          caps :: (if (len rest <? len from)%nat then findall_fuel f r rest
                   else match from with
                        | EmptyString => []
                        | String _ t => findall_fuel f r t
                        end)
      end
  end.

Definition findall (r : re) (s : string) : list (list string) :=
  findall_fuel (S (len s)) r s.

End Regex.
Export Regex.

(* ===================================================================== *)
(** * Numeric normalisation *)
(* ===================================================================== *)

Module Numeric.

(** [parse_negative]: the accounting form is handled outside the [try],
    so a [ValueError] of [float] escapes from that branch only. *)
Definition parse_negative (val_str : string) : result float :=
  if negb (truthy val_str) then Ok fzero
  else
    let val_str := strip (replace (replace val_str "P" "") "," "") in
    if startswith val_str "(" && endswith val_str ")" then
      let num_str := strip_chars val_str "()" in
      if truthy num_str then
        match py_float num_str with
        | Some x => Ok (fneg x)
        | None => Raise ValueError
        end
      else Ok fzero
    else
      match py_float val_str with
      | Some x => Ok x
      | None => Ok fzero
      end.

End Numeric.
Export Numeric.



(* ===================================================================== *)
(** * Effects: requests, sleeps and the log *)
(* ===================================================================== *)

Module Net.

(** One constructor per [logger] call of the discovery code, carrying the
    values interpolated in the message. *)
Inductive event : Type :=
| WarnHTTPRetry (code : Z) (url : string) (wait_time : Z) (attempt retries : nat)
| WarnURLRetry (url : string) (wait_time : Z) (attempt retries : nat)
| WarnNoPdf
| WarnItemHtml (e : exn)
| InfoCrawlPage (page_num : nat) (archive_url : string)
| ErrArchivePage (page_num : nat) (e : exn)
| DebugNoNodes (page_num : nat)
| InfoHalt (month_key_str start_month : string)
| WarnNode (node_url : string) (e : exn)
| InfoFinished (pages_crawled found : nat).

(** What a run has done to the outside: the URLs requested, the
    durations slept (seconds) and the log records, each in order. *)
Record world : Type := mkWorld {
  requested : list string;
  slept : list Z;
  logged : list event
}.

Definition world0 : world := mkWorld [] [] [].

(** Computations that may raise, and computations that cannot. *)
Definition M (A : Type) : Type := world -> result A * world.
Definition Act (A : Type) : Type := world -> A * world.

Definition ret {A} (a : A) : M A := fun w => (Ok a, w).
Definition raise {A} (e : exn) : M A := fun w => (Raise e, w).
Definition bind {A B} (m : M A) (f : A -> M B) : M B :=
  fun w =>
    match m w with
    | (Ok a, w') => f a w'
    | (Raise e, w') => (Raise e, w')
    end.

(** [try: m except Exception as e: h e], with a handler that cannot raise. *)
Definition catch {A} (m : M A) (h : exn -> Act A) : Act A :=
  fun w =>
    match m w with
    | (Ok a, w') => (a, w')
    | (Raise e, w') => h e w'
    end.

Definition lift {A} (m : Act A) : M A := fun w => let '(a, w') := m w in (Ok a, w').

Definition sleep (seconds : Z) : Act unit :=
  fun w => (tt, mkWorld (requested w) (slept w ++ [seconds]) (logged w)).
Definition log (e : event) : Act unit :=
  fun w => (tt, mkWorld (requested w) (slept w) (logged w ++ [e])).

Definition retS {A} (a : A) : Act A := fun w => (a, w).
Definition bindS {A B} (m : Act A) (f : A -> Act B) : Act B :=
  fun w => let '(a, w') := m w in f a w'.

Module Import Notations.
  Notation "x <- m ;; k" := (bind m (fun x => k))
    (at level 100, m at next level, right associativity).
  Notation "m ;;; k" := (bind (lift m) (fun _ => k))
    (at level 100, right associativity).
  Notation "x <~ m ;; k" := (bindS m (fun x => k))
    (at level 100, m at next level, right associativity).
  Notation "m ~;; k" := (bindS m (fun _ => k))
    (at level 100, right associativity).
End Notations.

Section Client.
(** The network: the outcome of the [n]-th request of the run, made to
    [url] — the decoded body, or the exception [urlopen] raises
    ([HTTPError code], [URLError], or anything else). *)
Variable net : nat -> string -> result string.
(** [self.retries] *)
Variable retries : nat.

Definition urlopen (url : string) : M string :=
  fun w => (net (length (requested w)) url,
            mkWorld (requested w ++ [url]) (slept w) (logged w)).

Definition retryable (code : Z) : bool :=
  (code =? 429) || ((500 <=? code) && (code <? 600)).

(** The body of [for attempt in range(self.retries)] and what follows
    the loop. *)
Fixpoint fetch_loop (url : string) (attempts : list nat) : M string :=
  match attempts with
  | [] =>
      raise (Exception ("Failed to fetch " ++ url ++ " after "
                          ++ show_nat retries ++ " attempts."))
  | attempt :: rest =>
      fun w =>
        match urlopen url w with
        | (Ok body, w') => (Ok body, w')
        | (Raise (HTTPError code), w') =>
            if retryable code then
              let wait_time := 2 ^ Z.of_nat attempt in
              (log (WarnHTTPRetry code url wait_time (attempt + 1) retries) ;;;
               sleep wait_time ;;;
               fetch_loop url rest) w'
            else (Raise (HTTPError code), w')
        | (Raise URLError, w') =>
            let wait_time := 2 ^ Z.of_nat attempt in
            (log (WarnURLRetry url wait_time (attempt + 1) retries) ;;;
             sleep wait_time ;;;
             fetch_loop url rest) w'
        | (Raise e, w') => (Raise e, w')
        end
  end.

Definition _fetch_with_retry (url : string) : M string :=
  fetch_loop url (seq 0 retries).
End Client.

End Net.
Export Net.
Import Net.Notations.

(* ===================================================================== *)
(** * Discovery items, PDF links and month keys *)
(* ===================================================================== *)

Module Discovery.

(** The dictionaries returned by both locators; [month_key_str] holds
    [None] or a text. *)
Record discovery_item : Type := mkItem {
  pdf_url : string;
  rss_item_url : string;
  month_key_str : option string;
  title : string
}.

Definition site : string := "https://company.meralco.com.ph".

Definition dquote : ascii := "034"%char.
Definition quote_chars : string := String dquote "'".

(** href=[Q]?([^Q >]+\.pdf)[Q]? with re.IGNORECASE, where Q stands for
    the single and the double quote character. *)
Definition P_pdf_href : re :=
  seqs [lit_ci "href=";
        Opt (Chr (fun c => char_in c quote_chars));
        Grp (Cat (Plus (Chr (fun c => negb (char_in c (quote_chars ++ " >")))))
                 (lit_ci ".pdf"));
        Opt (Chr (fun c => char_in c quote_chars))].

(** The groups of a match. *)
Definition group1 (caps : list string) : string := nth 0 caps "".
Definition group2 (caps : list string) : string := nth 1 caps "".

Definition find_pdf_urls (html : string) : list string :=
  map group1 (findall P_pdf_href html).

Definition rate_link (purl : string) : bool :=
  contains (lower purl) "rate"
  && (contains (lower purl) "schedule" || contains (lower purl) "summary").

(** The first link naming the rates, else the last link, else nothing. *)
Definition select_pdf (pdf_urls : list string) : option string :=
  let falsy (t : option string) :=
    match t with Some purl => negb (truthy purl) | None => true end in
  let target_pdf_url := find rate_link pdf_urls in
  let target_pdf_url :=
    if falsy target_pdf_url then last pdf_urls else target_pdf_url in
  if falsy target_pdf_url then None else target_pdf_url.

Definition absolute (pdf_url : string) : string :=
  if startswith pdf_url "http" then pdf_url else site ++ pdf_url.

(** ** [datetime.strptime] and [strftime] on a month and a year *)

Definition month_names : list string :=
  ["january"; "february"; "march"; "april"; "may"; "june"; "july";
   "august"; "september"; "october"; "november"; "december"].

Fixpoint index_of (p : string -> bool) (l : list string) (i : nat) : option nat :=
  match l with
  | [] => None
  | x :: r => if p x then Some i else index_of p r (S i)
  end.

Fixpoint all_digits (s : string) : bool :=
  match s with
  | EmptyString => true
  | String c r => is_digit c && all_digits r
  end.

(** [strptime(f"{m} {y}", "%b %Y")] when [abbr], [strptime(f"{m} {y}",
    "%B %Y")] otherwise: month names are read in any letter case, the
    year has four digits and is at least 1.  The result is (year, month). *)
Definition strptime (abbr : bool) (m y : string) : result (Z * nat) :=
  let key := lower m in
  let hit := if abbr then (fun name => String.eqb (take 3 name) key)
             else (fun name => String.eqb name key) in
  match index_of hit month_names 1 with
  | Some mm =>
      if (len y =? 4)%nat && all_digits y && negb (int_of y =? 0)
      then Ok (int_of y, mm)
      else Raise ValueError
  | None => Raise ValueError
  end.

Fixpoint zeros (n : nat) (s : string) : string :=
  match n with
  | O => s
  | S k => String "0" (zeros k s)
  end.

(** [s.zfill(width)] for a run of digits. *)
Definition zfill (width : nat) (s : string) : string :=
  zeros (width - len s) s.

(** [dt.strftime("%Y-%m")].  The C library formats the year: glibc does
    not pad a year below 1000 (CPython pads it itself from 3.13 on); the
    years the scraper meets have four digits. *)
Definition strftime (dt : Z * nat) : string :=
  show_nat (Z.to_nat (fst dt)) ++ "-" ++ zfill 2 (show_nat (snd dt)).

Definition month_alternatives (abbr : bool) : re :=
  alts (map (fun name => lit_ci (if abbr then take 3 name else name)) month_names).

(** (Jan|Feb|...|Dec)[a-z]* (\d{4}) with re.IGNORECASE *)
Definition P_month_abbr : re :=
  seqs [Grp (month_alternatives true);
        Star true (Chr (fun c => is_lower (lower_char c)));
        cs " "; Grp (rep 4 digit)].

(** (January|...|December)\s+(\d{4}) with re.IGNORECASE *)
Definition P_month_full : re :=
  seqs [Grp (month_alternatives false); Plus space; Grp (rep 4 digit)].

(** The month-year phrase of a title, lines 143-151 and 240-250: [None]
    when the phrase is absent; [strptime] may raise. *)
Definition month_of_title (title : string) : result (option string) :=
  match search P_month_full title with
  | Some caps =>
      match strptime false (group1 caps) (group2 caps) with
      | Ok dt => Ok (Some (strftime dt))
      | Raise e => Raise e
      end
  | None => Ok None
  end.

End Discovery.
Export Discovery.

(* ===================================================================== *)
(** * Feed Locator *)
(* ===================================================================== *)

Module Feed.

(** An [item] element of the feed: the text of its [title], [link] and
    [pubDate] children, [None] for a missing child or a child without
    text. *)
Record rss_entry : Type := mkEntry {
  entry_title : option string;
  entry_link : option string;
  entry_pubDate : option string
}.

(** [elem.text if (elem is not None and elem.text) else ""] *)
Definition text_or_empty (t : option string) : string :=
  match t with
  | Some s => s
  | None => ""
  end.

Definition is_summary_title (title : string) : bool :=
  contains (upper title) "SUMMARY OF SCHEDULE OF RATES"
  || contains (upper title) "SUMMARY SCHEDULE OF RATES".

(** Lines 127-140: the month key read from [pubDate]; every exception of
    the attempt is swallowed. *)
Definition month_of_pubDate (pubDate : string) : option string :=
  if truthy pubDate then
    match search P_month_abbr pubDate with
    | Some caps =>
        match strptime true (take 3 (group1 caps)) (group2 caps) with
        | Ok dt => Some (strftime dt)
        | Raise _ => None
        end
    | None => None
    end
  else None.

(** Lines 127-151: [pubDate] first, the title when that gave nothing. *)
Definition feed_month_key (pubDate title : string) : result (option string) :=
  let month_key_str := month_of_pubDate pubDate in
  let unresolved :=
    match month_key_str with
    | Some k => negb (truthy k)
    | None => true
    end in
  if unresolved then
    match month_of_title title with
    | Ok (Some k) => Ok (Some k)
    | Ok None => Ok month_key_str
    | Raise e => Raise e
    end
  else Ok month_key_str.

Section Locator.
Variable net : nat -> string -> result string.
Variable retries : nat.
(** [self.rss_url], and the [item] elements [ElementTree] finds in the
    fetched document (or the exception its parser raises). *)
Variable rss_url : string.
Variable parse_items : string -> result (list rss_entry).

(** Lines 100-125: the PDF of an entry, [None] standing for [continue]. *)
Definition entry_pdf (rss_item_url : string) : Act (option string) :=
  catch
    (html_data <- _fetch_with_retry net retries rss_item_url ;;
     match select_pdf (find_pdf_urls html_data) with
     | None => log WarnNoPdf ;;; ret None
     | Some target_pdf_url => ret (Some (absolute target_pdf_url))
     end)
    (fun e => log (WarnItemHtml e) ~;; retS None).

Fixpoint item_loop (items : list rss_entry) : M (option discovery_item) :=
  match items with
  | [] => ret None
  | item :: rest =>
      let title := text_or_empty (entry_title item) in
      if is_summary_title title then
        let rss_item_url := text_or_empty (entry_link item) in
        let pubDate := text_or_empty (entry_pubDate item) in
        found <- lift (entry_pdf rss_item_url) ;;
        match found with
        | None => item_loop rest
        | Some pdf_url =>
            match feed_month_key pubDate title with
            | Ok month_key_str =>
                ret (Some (mkItem pdf_url rss_item_url month_key_str title))
            | Raise e => raise e
            end
        end
      else item_loop rest
  end.

(** Lines 75-159.  The reason interpolated in the message of line 82 is
    left out. *)
Definition fetch_latest_rss_item : M (option discovery_item) :=
  fun w =>
    match urlopen net rss_url w with
    | (Ok xml_data, w') =>
        match parse_items xml_data with
        | Ok items => item_loop items w'
        | Raise e => (Raise e, w')
        end
    | (Raise (HTTPError _), w') | (Raise URLError, w') =>
        (Raise (Exception "Failed to fetch RSS feed"), w')
    | (Raise e, w') => (Raise e, w')
    end.
End Locator.

End Feed.
Export Feed.

(* ===================================================================== *)
(** * Archive Crawler *)
(* ===================================================================== *)

Module Archive.

(** The local variables of [fetch_historical_archive_items] that survive
    an iteration. *)
Record crawl : Type := mkCrawl {
  items_in_range : list discovery_item;
  seen_pdf_urls : gset string;
  seen_node_urls : gset string;
  stop_crawling : bool
}.

Definition crawl0 : crawl := mkCrawl [] ∅ ∅ false.

Inductive flow : Type := Continue | Break.

Definition any_char : re := Chr (fun c => negb (ascii_eqb c "010")).
Definition not_gt : re := Chr (fun c => negb (ascii_eqb c ">")).
Definition quote : re := Chr (fun c => char_in c quote_chars).

(** <a[^>]+href=[Q](/node/\d+)[Q][^>]*>(.*?)</a> *)
Definition P_node_link : re :=
  seqs [lit "<a"; Plus not_gt; lit "href="; quote;
        Grp (Cat (lit "/node/") (Plus digit)); quote;
        Star true not_gt; cs ">"; Grp (Star false any_char); lit "</a>"].

(** /(202[0-9])-(\d{2})/ *)
Definition P_url_year_month : re :=
  seqs [cs "/"; Grp (Cat (lit "202") digit); cs "-"; Grp (rep 2 digit); cs "/"].

(** /(\d{2})-(202[0-9])_ *)
Definition P_url_month_year : re :=
  seqs [cs "/"; Grp (rep 2 digit); cs "-"; Grp (Cat (lit "202") digit); cs "_"].

(** <title>(.*?)</title> with re.IGNORECASE *)
Definition P_title : re :=
  seqs [lit_ci "<title>"; Grp (Star false any_char); lit_ci "</title>"].

(** Lines 226-250: the three strategies in order; [Ok None] stands for
    the [continue] of line 250. *)
Definition archive_month_key (pdf_url node_html : string) : result (option string) :=
  match search P_url_year_month pdf_url with
  | Some caps => Ok (Some (group1 caps ++ "-" ++ group2 caps))
  | None =>
      match search P_url_month_year pdf_url with
      | Some caps => Ok (Some (group2 caps ++ "-" ++ group1 caps))
      | None =>
          let title :=
            match search P_title node_html with
            | Some caps => group1 caps
            | None => ""
            end in
          month_of_title title
      end
  end.

(** Line 271: the title of an accepted item. *)
Definition item_title (node_html : string) : string :=
  match search P_title node_html with
  | Some caps => strip (replace (group1 caps) " | Meralco" "")
  | None => "Historical Meralco Rates"
  end.

Definition archive_page (page_num : nat) : string :=
  "https://company.meralco.com.ph/taxonomy/term/86?page=" ++ show_nat page_num.

Section Crawler.
Variable net : nat -> string -> result string.
Variable retries : nat.
Variables start_month end_month : string.

(** Lines 201-250: from a detail page to its document and month; [None]
    stands for [continue]. *)
Definition resolve_node (node_url : string) (seen_pdf : gset string)
  : M (option (string * string * string)) :=
  node_html <- _fetch_with_retry net retries node_url ;;
  match select_pdf (find_pdf_urls node_html) with
  | None => ret None
  | Some target_pdf_url =>
      let pdf_url := absolute target_pdf_url in
      if bool_decide (pdf_url ∈ seen_pdf) then ret None
      else
        match archive_month_key pdf_url node_html with
        | Ok (Some month_key_str) => ret (Some (pdf_url, month_key_str, node_html))
        | Ok None => ret None
        | Raise e => raise e
        end
  end.

(** Lines 252-275. *)
Definition range_step (node_url : string) (c : crawl)
           (r : string * string * string) : Act (crawl * flow) :=
  let '(pdf_url, month_key_str, node_html) := r in
  if (end_month <? month_key_str)%string then
    retS (mkCrawl (items_in_range c) ({[pdf_url]} ∪ seen_pdf_urls c)
                  (seen_node_urls c) (stop_crawling c), Continue)
  else if (month_key_str <? start_month)%string then
    log (InfoHalt month_key_str start_month) ~;;
    retS (mkCrawl (items_in_range c) (seen_pdf_urls c) (seen_node_urls c) true,
          Break)
  else
    retS (mkCrawl
            (items_in_range c ++
               [mkItem pdf_url node_url (Some month_key_str) (item_title node_html)])
            ({[pdf_url]} ∪ seen_pdf_urls c) (seen_node_urls c) (stop_crawling c),
          Continue).

(** The body of [for href, link_text in node_links]. *)
Definition node_step (link : list string) (c : crawl) : Act (crawl * flow) :=
  let href := group1 link in
  let node_url := site ++ href in
  if bool_decide (node_url ∈ seen_node_urls c) then retS (c, Continue)
  else
    let c := mkCrawl (items_in_range c) (seen_pdf_urls c)
                     ({[node_url]} ∪ seen_node_urls c) (stop_crawling c) in
    sleep 1 ~;;
    catch
      (r <- resolve_node node_url (seen_pdf_urls c) ;;
       match r with
       | None => ret (c, Continue)
       | Some r => lift (range_step node_url c r)
       end)
      (fun e => log (WarnNode node_url e) ~;; retS (c, Continue)).

Fixpoint node_loop (node_links : list (list string)) (c : crawl) : Act crawl :=
  match node_links with
  | [] => retS c
  | link :: rest =>
      r <~ node_step link c ;;
      match r with
      | (c', Break) => retS c'
      | (c', Continue) => node_loop rest c'
      end
  end.

(** The [while not stop_crawling] loop, for at most [fuel] index pages.
    The result carries [pages_crawled] and tells whether the loop was
    left ([true]) or the fuel ran out ([false]). *)
Fixpoint page_loop (fuel page_num pages_crawled : nat) (c : crawl)
  : Act (crawl * nat * bool) :=
  if stop_crawling c then retS (c, pages_crawled, true)
  else
    match fuel with
    | O => retS (c, pages_crawled, false)
    | S fuel' =>
        log (InfoCrawlPage page_num (archive_page page_num)) ~;;
        fetched <~ catch
                     (html_data <- _fetch_with_retry net retries
                                     (archive_page page_num) ;;
                      ret (Some html_data))
                     (fun e => log (ErrArchivePage page_num e) ~;; retS None) ;;
        match fetched with
        | None => retS (c, pages_crawled, true)
        | Some html_data =>
            let pages_crawled := (pages_crawled + 1)%nat in
            let node_links := findall P_node_link html_data in
            match node_links with
            | [] =>
                log (DebugNoNodes page_num) ~;; retS (c, pages_crawled, true)
            | _ =>
                c' <~ node_loop node_links c ;;
                sleep 1 ~;;
                page_loop fuel' (page_num + 1) pages_crawled c'
            end
        end
    end.

(** [fetch_historical_archive_items]: [None] when [fuel] index pages
    did not end the crawl. *)
Definition fetch_historical_archive_items (fuel : nat)
  : Act (option (list discovery_item)) :=
  r <~ page_loop fuel 0 0 crawl0 ;;
  match r with
  | (c, pages_crawled, true) =>
      log (InfoFinished pages_crawled (length (items_in_range c))) ~;;
      retS (Some (items_in_range c))
  | (_, _, false) => retS None
  end.
End Crawler.

End Archive.
Export Archive.

(* ===================================================================== *)
(** * The discovery order of the archive *)
(* ===================================================================== *)

Module Discover.

(** The discovery order is what a crawl meets when no month bound
    applies: every new detail page is resolved as in [resolve_node], and
    every resolved document is recorded as seen.  It is the reference
    against which the bounded crawl is stated; it is not code of the
    scraper. *)

(** A resolved entry: the item it would yield, its month key, and the
    requests made up to and including the one for its detail page. *)
Record found : Type := mkFound {
  found_item : discovery_item;
  found_month : string;
  found_requests : list string
}.

Definition seen_sets : Type := (gset string * gset string)%type.

Section Discovery.
Variable net : nat -> string -> result string.
Variable retries : nat.

Definition discover_node (link : list string) (seen : seen_sets)
  : Act (option found * seen_sets) :=
  let node_url := site ++ group1 link in
  if bool_decide (node_url ∈ seen.2) then retS (None, seen)
  else
    let seen_node := {[node_url]} ∪ seen.2 in
    sleep 1 ~;;
    r <~ catch (resolve_node net retries node_url seen.1)
               (fun e => log (WarnNode node_url e) ~;; retS None) ;;
    match r with
    | None => retS (None, (seen.1, seen_node))
    | Some (pdf_url, month_key_str, node_html) =>
        fun w =>
          ((Some (mkFound
                    (mkItem pdf_url node_url (Some month_key_str)
                            (item_title node_html))
                    month_key_str (requested w)),
            ({[pdf_url]} ∪ seen.1, seen_node)), w)
    end.

Fixpoint discover_nodes (node_links : list (list string)) (seen : seen_sets)
  : Act (list found * seen_sets) :=
  match node_links with
  | [] => retS ([], seen)
  | link :: rest =>
      r <~ discover_node link seen ;;
      r' <~ discover_nodes rest r.2 ;;
      retS ((match r.1 with Some f => [f] | None => [] end ++ r'.1)%list, r'.2)
  end.

(** The entries of at most [fuel] index pages from [page_num] on, and
    whether the archive ended within them (a page that cannot be
    fetched, or a page without links). *)
Fixpoint discover_pages (fuel page_num : nat) (seen : seen_sets)
  : Act (list found * bool) :=
  match fuel with
  | O => retS ([], false)
  | S fuel' =>
      log (InfoCrawlPage page_num (archive_page page_num)) ~;;
      fetched <~ catch
                   (html_data <- _fetch_with_retry net retries
                                   (archive_page page_num) ;;
                    ret (Some html_data))
                   (fun e => log (ErrArchivePage page_num e) ~;; retS None) ;;
      match fetched with
      | None => retS ([], true)
      | Some html_data =>
          match findall P_node_link html_data with
          | [] => log (DebugNoNodes page_num) ~;; retS ([], true)
          | node_links =>
              r <~ discover_nodes node_links seen ;;
              sleep 1 ~;;
              r' <~ discover_pages fuel' (page_num + 1) r.2 ;;
              retS ((r.1 ++ r'.1)%list, r'.2)
          end
      end
  end.
End Discovery.

(** An entry older than the start of the range. *)
Definition below (start_month : string) (f : found) : bool :=
  (found_month f <? start_month)%string.

(** The entries met before the first one older than [start_month]. *)
Fixpoint before_halt (start_month : string) (l : list found) : list found :=
  match l with
  | [] => []
  | f :: r => if below start_month f then [] else f :: before_halt start_month r
  end.

(** Of those, the items whose month is not after [end_month]. *)
Definition in_range_items (start_month end_month : string) (l : list found)
  : list discovery_item :=
  map found_item
      (List.filter (fun f => negb (end_month <? found_month f)%string)
                   (before_halt start_month l)).

End Discover.
Export Discover.

(* ===================================================================== *)
(** * Column Semantics Mapper *)
(* ===================================================================== *)

Module Mapper.

(** A cell of an extracted table is a text or [None]; a table is a list
    of rows. *)
Definition cell : Type := option string.
Definition row : Type := list cell.
Definition table : Type := list row.

Definition cell_truthy (c : cell) : bool :=
  match c with
  | Some s => truthy s
  | None => false
  end.

Definition cell_text (c : cell) : string :=
  match c with
  | Some s => s
  | None => ""
  end.

(** The values stored in a column mapping: an index, or a list (of
    indices, or of header texts under [unmapped_headers]). *)
Inductive pyval : Type :=
| PInt (i : Z)
| PStr (s : string).

Inductive colval : Type :=
| Idx (i : Z)
| IdxList (l : list pyval).

Fixpoint sfilter (p : ascii -> bool) (s : string) : string :=
  match s with
  | EmptyString => EmptyString
  | String c r => if p c then String c (sfilter p r) else sfilter p r
  end.

(** [re.sub(r"\s+", " ", s)]: [in_run] tells that the previous character
    was whitespace. *)
Fixpoint collapse_spaces (in_run : bool) (s : string) : string :=
  match s with
  | EmptyString => EmptyString
  | String c r =>
      if is_space c then
        if in_run then collapse_spaces true r
        else String " " (collapse_spaces true r)
      else String c (collapse_spaces false r)
  end.

Definition newline : string := String "010" EmptyString.

(** Lines 315-317. *)
Definition normalize (h : string) : string :=
  let s := replace (lower h) newline " " in
  let s := sfilter (fun c => is_lower c || is_digit c || is_space c) s in
  strip (collapse_spaces false s).

(** Lines 309-311: one row of the header region added to the columns. *)
Fixpoint add_cells (num_cols i : nat) (r : row) (header_strings : list string)
  : list string :=
  match r with
  | [] => header_strings
  | c :: rest =>
      add_cells num_cols (S i) rest
        (if (i <? num_cols)%nat && cell_truthy c
         then alter (fun h => h ++ " " ++ cell_text c) i header_strings
         else header_strings)
  end.

Definition header_strings_of (t : table) (num_cols : nat) : list string :=
  fold_left (fun hs r => add_cells num_cols 0 r hs) (firstn 4 t)
            (repeat "" num_cols).

Definition noise : list string := ["per kw"; "per custmo"; "penalty"; "disc"].

Definition unmapped_of (mapping : gmap string colval) : list pyval :=
  match mapping !! "unmapped_headers" with
  | Some (IdxList l) => l
  | _ => []
  end.

(** The body of [for i, text in enumerate(normalized)], lines 322-377. *)
Definition map_header (i : nat) (text : string) (mapping : gmap string colval)
  : gmap string colval :=
  let has := contains text in
  let set (key : string) := <[key := Idx (Z.of_nat i)]> mapping in
  if negb (truthy text) then mapping
  else if has "generation" then set "generation_charge"
  else if has "transmission" then set "transmission_charge"
  else if has "system loss" then set "system_loss_charge"
  else if has "distribution" then set "distribution_charge"
  else if has "supply" then set "supply_charge"
  else if has "metering" then set "metering_charge"
  else if has "awat" then set "awat_charge"
  else if has "reset" then
    if has "onetime" || has "one time" then set "one_time_reset_fee_adjustment"
    else if has "regulatory" then set "regulatory_reset_fees_adjustment"
    else mapping
  else if has "lifeline" && has "subsidy" then set "lifeline_rate_subsidy"
  else if has "lifeline" && has "discount" then set "applicable_discount_percent"
  else if has "senior citizen" then set "senior_citizen_subsidy"
  else if has "current rpt" then set "current_rpt_charge"
  else if (has "ucme" || has "uc me") && has "npc" then set "uc_me_npc_spug"
  else if (has "ucme" || has "uc me") && has "red" then set "uc_me_red_ci"
  else if has "uc ec" || has "ucec" then set "uc_ec"
  else if has "uc sd" || has "ucsd" then set "uc_sd"
  else if has "fitall" || has "fit all" then set "fit_all"
  else if has "gea" then set "gea_all"
  else if negb (existsb (String.eqb text) noise)
          && negb (has "power factor") && negb (has "summary schedule")
  then <["unmapped_headers" := IdxList (unmapped_of mapping ++ [PStr text])]> mapping
  else mapping.

Fixpoint map_headers (i : nat) (normalized : list string)
         (mapping : gmap string colval) : gmap string colval :=
  match normalized with
  | [] => mapping
  | text :: rest => map_headers (S i) rest (map_header i text mapping)
  end.

Definition _build_column_index_map (t : table) : gmap string colval :=
  match t with
  | [] => ∅
  | [] :: _ => ∅
  | first :: _ =>
      let num_cols := length first in
      let normalized := map normalize (header_strings_of t num_cols) in
      map_headers 0 normalized ∅
  end.

End Mapper.
Export Mapper.

(* ===================================================================== *)
(** * Row Parser and Validator *)
(* ===================================================================== *)

Module Rows.

Record lifeline_t : Type := mkLifeline {
  rate_subsidy_per_kwh : float;
  applicable_discount_percent : float
}.

(** The dictionary appended to [rates]. *)
Record rate : Type := mkRate {
  consumption_bracket : string;
  min_kwh : Z;
  max_kwh : option Z;
  generation_charge : float;
  transmission_charge : float;
  system_loss_charge : float;
  distribution_charge : float;
  supply_charge : float;
  metering_charge : float;
  awat_charge : float;
  regulatory_reset_fees_adjustment : float;
  one_time_reset_fee_adjustment : float;
  lifeline : lifeline_t;
  senior_citizen_subsidy : float;
  current_rpt_charge : float;
  uc_me_npc_spug : float;
  uc_me_red_ci : float;
  uc_ec : float;
  uc_sd : float;
  fit_all : float;
  gea_all : float
}.

(** The [logger.error] calls of [extract_residential_rates]. *)
Inductive diag : Type :=
| ErrMissing (missing : list string) (col_map : gmap string colval)
| ErrZeroCore (bracket : string) (gen dist sys_loss : float)
| ErrRow (clean_row : list string) (e : exn).

Definition rbind {A B} (m : result A) (f : A -> result B) : result B :=
  match m with
  | Ok a => f a
  | Raise e => Raise e
  end.
Notation "'let*' x ':=' m 'in' k" := (rbind m (fun x => k))
  (at level 10, x name, m at level 100, k at level 200).

(** [l[i]] with Python's negative indices. *)
Definition py_index (l : list string) (i : Z) : result string :=
  let n := Z.of_nat (length l) in
  let j := if i <? 0 then i + n else i in
  if (0 <=? j) && (j <? n) then
    match l !! Z.to_nat j with
    | Some x => Ok x
    | None => Raise IndexError
    end
  else Raise IndexError.

(** (?:^\d+\s*TO\s*\d+\s*KWH)|(?:^OVER\s*\d+\s*KWH) with re.IGNORECASE;
    the pattern is used with [re.match], which anchors it at the start of
    the text, so the two [^] hold by construction. *)
Definition P_bracket : re :=
  Alt (seqs [Plus digit; Star true space; lit_ci "TO"; Star true space;
             Plus digit; Star true space; lit_ci "KWH"])
      (seqs [lit_ci "OVER"; Star true space; Plus digit; Star true space;
             lit_ci "KWH"]).

Definition is_bracket (first : string) : bool :=
  match rmatch_prefix P_bracket first with
  | Some _ => true
  | None => false
  end.

(** [re.findall(r"\d+", s)]: the maximal runs of digits, left to right;
    [run] is the run being read. *)
Fixpoint digit_runs (run s : string) : list string :=
  match s with
  | EmptyString => if truthy run then [run] else []
  | String c r =>
      if is_digit c then digit_runs (run ++ String c EmptyString) r
      else (if truthy run then [run] else []) ++ digit_runs EmptyString r
  end.

(** Lines 468-478: [(min_kwh, max_kwh)]. *)
Definition bracket_bounds (bracket : string) : Z * option Z :=
  let bracket_upper := upper bracket in
  let nums := map int_of (digit_runs EmptyString bracket_upper) in
  if contains bracket_upper "OVER" && (0 <? length nums)%nat
  then (nth 0 nums 0 + 1, None)
  else if (2 <=? length nums)%nat
  then (nth 0 nums 0, Some (nth 1 nums 0))
  else (0, None).

Definition required_core : list string :=
  ["generation_charge"; "transmission_charge"; "system_loss_charge";
   "distribution_charge"; "supply_charge"; "metering_charge";
   "lifeline_rate_subsidy"; "applicable_discount_percent"].

Definition mapped (col_map : gmap string colval) (k : string) : bool :=
  match col_map !! k with
  | Some _ => true
  | None => false
  end.

(** [[k for k in required_core if k not in col_map]] *)
Definition missing_keys (col_map : gmap string colval) : list string :=
  List.filter (fun k => negb (mapped col_map k)) required_core.

Section Row.
Variable col_map : gmap string colval.
Variable clean_row : list string.

Definition width : Z := Z.of_nat (length clean_row).

Definition cell_value (ix : Z) (is_percent : bool) : result float :=
  let* v := py_index clean_row ix in
  parse_negative (if is_percent then replace v "%" "" else v).

(** The loop of lines 443-448. *)
Fixpoint val_sum (idx_val : list pyval) (is_percent : bool) (total : float)
  : result float :=
  match idx_val with
  | [] => Ok total
  | PStr _ :: _ => Raise TypeError
  | PInt ix :: rest =>
      if negb (ix =? -1) && (ix <? width) then
        let* x := cell_value ix is_percent in
        val_sum rest is_percent (fadd total x)
      else val_sum rest is_percent total
  end.

(** The nested function [_val]. *)
Definition _val (key : string) (is_percent : bool) : result float :=
  let idx_val := default (Idx (-1)) (col_map !! key) in
  match idx_val with
  | IdxList l => val_sum l is_percent fzero
  | Idx i =>
      if (i =? -1) || (width <=? i) then Ok fzero
      else cell_value i is_percent
  end.

Inductive outcome : Type :=
| Emit (r : rate)
| Reject (d : diag).

(** Lines 458-511, after the required-field check: [Ok (inl d)] is the
    [continue] of the sanity gate, with its log record [d]. *)
Definition build_rate (first : string) : result (diag + rate) :=
  let* gen := _val "generation_charge" false in
  let* dist := _val "distribution_charge" false in
  let* sys_loss := _val "system_loss_charge" false in
  if feq gen fzero || feq dist fzero || feq sys_loss fzero then
    Ok (inl (ErrZeroCore first gen dist sys_loss))
  else
    let '(lo, hi) := bracket_bounds first in
    let* transmission := _val "transmission_charge" false in
    let* supply := _val "supply_charge" false in
    let* metering := _val "metering_charge" false in
    let* awat := _val "awat_charge" false in
    let* regulatory := _val "regulatory_reset_fees_adjustment" false in
    let* one_time := _val "one_time_reset_fee_adjustment" false in
    let* subsidy := _val "lifeline_rate_subsidy" false in
    let* discount := _val "applicable_discount_percent" true in
    let* senior := _val "senior_citizen_subsidy" false in
    let* rpt := _val "current_rpt_charge" false in
    let* npc := _val "uc_me_npc_spug" false in
    let* red := _val "uc_me_red_ci" false in
    let* ec := _val "uc_ec" false in
    let* sd := _val "uc_sd" false in
    let* fit := _val "fit_all" false in
    let* gea := _val "gea_all" false in
    Ok (inr (mkRate first lo hi gen transmission sys_loss dist supply
                    metering awat regulatory one_time
                    (mkLifeline subsidy discount)
                    senior rpt npc red ec sd fit gea)).

(** Lines 420-514: the [try] block of a bracket row. *)
Definition parse_row (first : string) : outcome :=
  let missing := missing_keys col_map in
  match missing with
  | _ :: _ => Reject (ErrMissing missing col_map)
  | [] =>
      match build_rate first with
      | Ok (inr r) => Emit r
      | Ok (inl d) => Reject d
      | Raise e => Reject (ErrRow clean_row e)
      end
  end.
End Row.

(** What [extract_residential_rates] carries from row to row: the
    output list, [self.last_col_map], the log and the stop flag. *)
Record extraction : Type := mkExtraction {
  rates : list rate;
  last_col_map : option (gmap string colval);
  diags : list diag;
  stop_extracting : bool
}.

Definition extraction0 : extraction := mkExtraction [] None [] false.

(** [cell.replace("\n", " ").strip() if cell else ""] *)
Definition clean_cell (c : cell) : string :=
  if cell_truthy c then strip (replace (cell_text c) newline " ") else "".

Definition is_marker (first : string) : bool :=
  startswith (upper first) "GENERAL SERVICE".

(** The body of [for row in table], lines 404-514; the boolean tells
    whether the loop goes on. *)
Definition row_step (col_map : gmap string colval) (r : row) (st : extraction)
  : extraction * bool :=
  match map clean_cell r with
  | [] => (st, true)
  | (first :: _) as clean_row =>
      if negb (existsb cell_truthy r) then (st, true)
      else if is_marker first then
        (mkExtraction (rates st) (last_col_map st) (diags st) true, false)
      else if is_bracket first then
        match parse_row col_map clean_row first with
        | Emit x =>
            (mkExtraction (rates st ++ [x]) (last_col_map st) (diags st)
                          (stop_extracting st), true)
        | Reject d =>
            (mkExtraction (rates st) (last_col_map st) (diags st ++ [d])
                          (stop_extracting st), true)
        end
      else (st, true)
  end.

Fixpoint row_loop (col_map : gmap string colval) (rows : list row)
         (st : extraction) : extraction :=
  match rows with
  | [] => st
  | r :: rest =>
      match row_step col_map r st with
      | (st', true) => row_loop col_map rest st'
      | (st', false) => st'
      end
  end.

(** [self.last_col_map = col_map] *)
Definition with_col_map (col_map : gmap string colval) (st : extraction)
  : extraction :=
  mkExtraction (rates st) (Some col_map) (diags st) (stop_extracting st).

(** The body of [for table in tables] after its [break] test. *)
Definition table_step (t : table) (st : extraction) : extraction :=
  let col_map := _build_column_index_map t in
  row_loop col_map t (with_col_map col_map st).

Fixpoint table_loop (tables : list table) (st : extraction) : extraction :=
  match tables with
  | [] => st
  | t :: rest =>
      if stop_extracting st then st
      else table_loop rest (table_step t st)
  end.

(** A document as [pdfplumber] presents it: for each page, the tables
    [extract_tables] returns. *)
Definition pdf : Type := list (list table).

Fixpoint pdf_page_loop (pages : pdf) (st : extraction) : extraction :=
  match pages with
  | [] => st
  | tables :: rest =>
      if stop_extracting st then st
      else pdf_page_loop rest (table_loop tables st)
  end.

Definition run_extraction (doc : pdf) : extraction := pdf_page_loop doc extraction0.

Definition extract_residential_rates (doc : pdf) : list rate :=
  rates (run_extraction doc).

End Rows.
Export Rows.

(* ===================================================================== *)
(** * Vocabulary of the properties, and sample inputs *)
(* ===================================================================== *)

(** ** Rows and column mappings *)

(** The four ways an iteration of the row loop ends. *)
Inductive row_effect (col_map : gmap string colval) (r : row) (st : extraction)
  : extraction * bool -> Prop :=
| RowIgnored : row_effect col_map r st (st, true)
| RowMarker :
    row_effect col_map r st
      (mkExtraction (rates st) (last_col_map st) (diags st) true, false)
| RowEmitted clean_row first x :
    parse_row col_map clean_row first = Emit x ->
    row_effect col_map r st
      (mkExtraction (rates st ++ [x]) (last_col_map st) (diags st)
                    (stop_extracting st), true)
| RowRejected clean_row first d :
    parse_row col_map clean_row first = Reject d ->
    row_effect col_map r st
      (mkExtraction (rates st) (last_col_map st) (diags st ++ [d])
                    (stop_extracting st), true).

(** A row whose first cell, once cleaned, begins with GENERAL SERVICE. *)
Definition marker_row (r : row) : bool :=
  match r with
  | c :: _ => is_marker (clean_cell c)
  | [] => false
  end.

(** A row whose first cell, once cleaned, matches the bracket pattern. *)
Definition bracket_row (r : row) : bool :=
  match r with
  | c :: _ => is_bracket (clean_cell c)
  | [] => false
  end.

(** The three charges of the sanity gate. *)
Definition core_three : list string :=
  ["generation_charge"; "distribution_charge"; "system_loss_charge"].

(** A mapping whose indices are column positions, or the sentinel. *)
Definition column_positions (v : option colval) : Prop :=
  match v with
  | None => True
  | Some (Idx i) => -1 <= i
  | Some (IdxList l) =>
      Forall (fun x => match x with PInt ix => -1 <= ix | PStr _ => True end) l
  end.

(** A header that meets the condition of one of the rules of lines
    324-361, the rule for reset included, whatever the rule then does. *)
Definition rule_hit (text : string) : bool :=
  let has := contains text in
  has "generation" || has "transmission" || has "system loss"
  || has "distribution" || has "supply" || has "metering" || has "awat"
  || has "reset"
  || (has "lifeline" && has "subsidy") || (has "lifeline" && has "discount")
  || has "senior citizen" || has "current rpt"
  || ((has "ucme" || has "uc me") && has "npc")
  || ((has "ucme" || has "uc me") && has "red")
  || (has "uc ec" || has "ucec") || (has "uc sd" || has "ucsd")
  || (has "fitall" || has "fit all") || has "gea".

(** A header of the noise list of lines 364-374. *)
Definition is_noise (text : string) : bool :=
  existsb (String.eqb text) noise
  || contains text "power factor" || contains text "summary schedule".

(** ** Bracket texts *)

(** A text of whitespace only. *)
Fixpoint all_space (s : string) : bool :=
  match s with
  | EmptyString => true
  | String c r => is_space c && all_space r
  end.

(** A text without any digit. *)
Fixpoint no_digit (s : string) : bool :=
  match s with
  | EmptyString => true
  | String c r => negb (is_digit c) && no_digit r
  end.

(** A non-empty run of digits. *)
Definition digits_text (s : string) : Prop :=
  truthy s = true /\ all_digits s = true.

(** ** Requests *)

(** Transient failures of a request: HTTP 429, HTTP 5xx, and the
    connection errors [urlopen] reports as [URLError]. *)
Inductive transient_failure : result string -> Prop :=
| Transient429 : transient_failure (Raise (HTTPError 429))
| Transient5xx code :
    500 <= code < 600 -> transient_failure (Raise (HTTPError code))
| TransientConnection : transient_failure (Raise URLError).

(** The delays slept after the attempts [first], ..., [first + n - 1]. *)
Definition backoff (first n : nat) : list Z :=
  map (fun attempt => 2 ^ Z.of_nat attempt) (seq first n).

(** ** The crawl against the discovery order *)

(** What the range test of lines 252-275 makes of an entry of the
    discovery order. *)
Definition settle (start_month end_month : string) (c : crawl)
           (r : option found * seen_sets) : Act (crawl * flow) :=
  match r.1 with
  | None =>
      retS (mkCrawl (items_in_range c) r.2.1 r.2.2 (stop_crawling c), Continue)
  | Some f =>
      if (end_month <? found_month f)%string then
        retS (mkCrawl (items_in_range c) r.2.1 r.2.2 (stop_crawling c), Continue)
      else if (found_month f <? start_month)%string then
        log (InfoHalt (found_month f) start_month) ~;;
        retS (mkCrawl (items_in_range c) (seen_pdf_urls c) r.2.2 true, Break)
      else
        retS (mkCrawl (items_in_range c ++ [found_item f]) r.2.1 r.2.2
                      (stop_crawling c), Continue)
  end.

(** The two sets of URLs a crawl has seen. *)
Definition seen_of (c : crawl) : seen_sets := (seen_pdf_urls c, seen_node_urls c).

(** An item of the crawler with a resolved month key: the page fetched
    at the address of the item yields its PDF link, one of the three
    strategies reads the month key of the item from that link or from
    the title of that page, and the title of the item is the page's. *)
Definition resolved_item (net : nat -> string -> result string)
           (retries : nat) (it : discovery_item) : Prop :=
  exists m node_html target w w',
    _fetch_with_retry net retries (rss_item_url it) w = (Ok node_html, w')
    /\ select_pdf (find_pdf_urls node_html) = Some target
    /\ pdf_url it = absolute target
    /\ archive_month_key (pdf_url it) node_html = Ok (Some m)
    /\ month_key_str it = Some m
    /\ title it = item_title node_html.

(** ** The entries of the feed *)

(** The entries the Feed Locator passes over, in document order: an
    entry whose title does not name the summary of the schedule of
    rates, and an entry whose page yields no PDF link, for want of a
    link or because the page cannot be fetched (lines 113-125).
    The result is the world after the last of them; it is [None] when
    one of the entries is not passed over. *)
Fixpoint passed_over (net : nat -> string -> result string) (retries : nat)
         (entries : list rss_entry) (w : world) : option world :=
  match entries with
  | [] => Some w
  | entry :: rest =>
      if is_summary_title (text_or_empty (entry_title entry)) then
        match entry_pdf net retries (text_or_empty (entry_link entry)) w with
        | (None, w') => passed_over net retries rest w'
        | (Some _, _) => None
        end
      else passed_over net retries rest w
  end.

(** ** Amounts *)

(** The text of an amount once the currency signs and the thousands
    separators are removed and the surrounding whitespace is stripped
    (line 22). *)
Definition cleaned_text (val_str : string) : string :=
  strip (replace (replace val_str "P" "") "," "").

Fixpoint all_chars (p : ascii -> bool) (s : string) : bool :=
  match s with
  | EmptyString => true
  | String c r => p c && all_chars p r
  end.

(** A character that is neither whitespace, nor a parenthesis, nor the
    currency sign. *)
Definition amount_char (c : ascii) : bool :=
  negb (is_space c || char_in c "P()").

(** ** Headers and column mappings *)

(** A header that ends up in [unmapped_headers]: not empty, meeting the
    condition of no rule, and not noise. *)
Definition unmatched (text : string) : bool :=
  truthy text && negb (rule_hit text) && negb (is_noise text).

(** The keys of the charges, in the order of the rules of lines 324-361. *)
Definition rate_keys : list string :=
  ["generation_charge"; "transmission_charge"; "system_loss_charge";
   "distribution_charge"; "supply_charge"; "metering_charge"; "awat_charge";
   "one_time_reset_fee_adjustment"; "regulatory_reset_fees_adjustment";
   "lifeline_rate_subsidy"; "applicable_discount_percent";
   "senior_citizen_subsidy"; "current_rpt_charge"; "uc_me_npc_spug";
   "uc_me_red_ci"; "uc_ec"; "uc_sd"; "fit_all"; "gea_all"].

(** An entry of a column mapping over [num_cols] columns: a charge at a
    column position, or the list of the headers left unmapped. *)
Definition column_entry (num_cols : nat) (k : string) (v : colval) : Prop :=
  match v with
  | Idx i => In k rate_keys /\ 0 <= i < Z.of_nat num_cols
  | IdxList l =>
      k = "unmapped_headers" /\ Forall (fun x => exists s, x = PStr s) l
  end.

(** A mapping that sends every charge it knows to a column position. *)
Definition charges_at_columns (col_map : gmap string colval) : Prop :=
  forall k v,
    In k rate_keys -> col_map !! k = Some v -> exists i, v = Idx i /\ 0 <= i.

(** ** The rows of a document *)

(** What a log record of the extraction is logged for: mappings that are
    missing, a core charge equal to 0.0, or the [ValueError] of a cell. *)
Definition justified (d : diag) : Prop :=
  match d with
  | ErrMissing missing col_map =>
      missing <> [] /\ missing = missing_keys col_map
  | ErrZeroCore _ gen dist sys_loss =>
      feq gen fzero || feq dist fzero || feq sys_loss fzero = true
  | ErrRow _ e => e = ValueError
  end.

(** The rows of a document in reading order, each with the column
    mapping of its table. *)
Definition mapped_row : Type := (gmap string colval * row)%type.

Definition table_rows (t : table) : list mapped_row :=
  map (pair (_build_column_index_map t)) t.

Definition document_rows (doc : pdf) : list mapped_row :=
  flat_map (flat_map table_rows) doc.

Definition is_marker_row (cr : mapped_row) : bool := marker_row cr.2.

(** The rows read before the terminal marker. *)
Fixpoint before_marker (rows : list mapped_row) : list mapped_row :=
  match rows with
  | [] => []
  | cr :: rest => if is_marker_row cr then [] else cr :: before_marker rest
  end.

(** What the parser makes of a row that matches the bracket pattern. *)
Definition row_outcome (cr : mapped_row) : option outcome :=
  if bracket_row cr.2
  then Some (parse_row cr.1 (map clean_cell cr.2) (hd "" (map clean_cell cr.2)))
  else None.

Definition row_rates (cr : mapped_row) : list rate :=
  match row_outcome cr with
  | Some (Emit x) => [x]
  | _ => []
  end.

Definition row_diags (cr : mapped_row) : list diag :=
  match row_outcome cr with
  | Some (Reject d) => [d]
  | _ => []
  end.

(** The state [st'] reached from [st] by reading [rows]: the rates and
    the log records of the rows before the marker are added, and the
    stop flag is raised by a marker. *)
Definition rows_read (rows : list mapped_row) (st st' : extraction) : Prop :=
  rates st' = (rates st ++ flat_map row_rates (before_marker rows))%list
  /\ diags st' = (diags st ++ flat_map row_diags (before_marker rows))%list
  /\ stop_extracting st' = stop_extracting st || existsb is_marker_row rows.

(** ** The items of a crawl *)

(** An item whose month key lies within the bounds. *)
Definition within (start_month end_month : string) (it : discovery_item) : Prop :=
  exists m,
    month_key_str it = Some m
    /\ (end_month <? m)%string = false /\ (m <? start_month)%string = false.

(** The two addresses of an item of the crawler: an absolute address for
    the PDF, a page of the site for the item. *)
Definition addressed (it : discovery_item) : Prop :=
  startswith (pdf_url it) "http" = true
  /\ exists href, rss_item_url it = site ++ href.

(** A crawl none of whose items shares the address of its PDF or of its
    page with another one, every such address being recorded as seen. *)
Definition distinct_addresses (c : crawl) : Prop :=
  NoDup (map pdf_url (items_in_range c))
  /\ NoDup (map rss_item_url (items_in_range c))
  /\ (forall it, In it (items_in_range c) -> pdf_url it ∈ seen_pdf_urls c)
  /\ (forall it, In it (items_in_range c) -> rss_item_url it ∈ seen_node_urls c).

(** ** Sample inputs *)

(** A residential table as the documents print it: a header row, four
    bracket rows (the second with a generation charge of 0), the marker
    of the next section, and a bracket row of that section. *)
Definition sample_header : row :=
  map Some ["Consumption"; "Generation Charge"; "Transmission"; "System Loss";
            "Distribution"; "Supply"; "Metering"; "Lifeline Subsidy";
            "Lifeline Discount"].
Definition zero_row : list string :=
  ["21 TO 50 KWH"; "0"; "0.9"; "0.6"; "1.2"; "0.5"; "0.3"; "(0.01)"; "50%"].
Definition sample_table : table :=
  [sample_header;
   map Some ["0 TO 20 KWH"; "7.1"; "0.9"; "0.6"; "1.2"; "0.5"; "0.3"; "(0.01)"; "100%"];
   map Some zero_row;
   map Some ["100 TO 200 KWH"; "7.1"; "0.9"; "0.6"; "1.2"; "0.5"; "0.3"; "0"; "0%"];
   map Some ["OVER 900 KWH"; "7.1"; "0.9"; "0.6"; "1.2"; "0.5"; "0.3"; "0"; "0%"];
   map Some ["GENERAL SERVICE A"; ""; ""; ""; ""; ""; ""; ""; ""];
   map Some ["0 TO 200 KWH"; "8.2"; "0.9"; "0.6"; "1.2"; "0.5"; "0.3"; "0"; "0%"]].

(** Its column mapping, and the rates of the document made of it. *)
Definition sample_map : gmap string colval :=
  Eval vm_compute in _build_column_index_map sample_table.
Definition sample_rates : list rate :=
  Eval vm_compute in extract_residential_rates [[sample_table]].

(** The same table without the metering column. *)
Definition unmetered_table : table :=
  [map Some ["Consumption"; "Generation Charge"; "Transmission"; "System Loss";
             "Distribution"; "Supply"; "Lifeline Subsidy"; "Lifeline Discount"];
   map Some ["0 TO 20 KWH"; "7.1"; "0.9"; "0.6"; "1.2"; "0.5"; "(0.01)"; "100%"]].

(** A mapping to columns 5, 2 and 7, and 1, for rows of two cells. *)
Definition narrow_map : gmap string colval :=
  <["generation_charge" := Idx 5]>
    (<["supply_charge" := IdxList [PInt 2; PInt 7]]>
       (<["metering_charge" := Idx 1]> ∅)).

(** A server that answers every request with HTTP 503. *)
Definition always_503 : nat -> string -> result string :=
  fun _ _ => Raise (HTTPError 503).

(** An archive of one index page with three detail pages, newest first,
    followed by a page that must not be reached. *)
Definition archive_net : nat -> string -> result string :=
  fun _ url =>
    if String.eqb url (archive_page 0) then
      Ok ("<ul><li><a class='t' href='/node/101'>March 2024</a></li>"
          ++ "<li><a class='t' href='/node/102'>February 2024</a></li>"
          ++ "<li><a class='t' href='/node/103'>January 2024</a></li></ul>")
    else if String.eqb url (site ++ "/node/101") then
      Ok ("<title>Rates for March 2024 | Meralco</title>"
          ++ "<a href='/sites/default/files/2024-03/rates_summary.pdf'>PDF</a>")
    else if String.eqb url (site ++ "/node/102") then
      Ok ("<title>Rates for February 2024 | Meralco</title>"
          ++ "<a href='/sites/default/files/02-2024_rates_summary.pdf'>PDF</a>")
    else if String.eqb url (site ++ "/node/103") then
      Ok ("<title>Summary Schedule of Rates January 2024 | Meralco</title>"
          ++ "<a href='/sites/default/files/jan_rates_summary.pdf'>PDF</a>")
    else if String.eqb url (archive_page 1) then
      Ok "<a class='t' href='/node/104'>December 2023</a>"
    else Raise (HTTPError 404).

(** A feed whose only entry announces a summary of rates, links to a page
    with a PDF, has no publication date and names no month in its title. *)
Definition undated_feed_url : string :=
  "https://company.meralco.com.ph/taxonomy/term/86/feed".
Definition undated_xml : string :=
  "<rss><channel><item><title>Summary Schedule of Rates</title>"
  ++ "<link>https://company.meralco.com.ph/node/200</link></item></channel></rss>".
Definition undated_entry : rss_entry :=
  mkEntry (Some "Summary Schedule of Rates")
          (Some "https://company.meralco.com.ph/node/200")
          None.
Definition undated_net : nat -> string -> result string :=
  fun _ url =>
    if String.eqb url undated_feed_url then Ok undated_xml
    else if String.eqb url "https://company.meralco.com.ph/node/200" then
      Ok "<a href='/sites/default/files/rates_summary.pdf'>Download</a>"
    else Raise (HTTPError 404).
Definition undated_items : string -> result (list rss_entry) :=
  fun xml_data =>
    if String.eqb xml_data undated_xml then Ok [undated_entry]
    else Raise (Exception "ParseError").

(** An archive of one index page with three detail pages: the first
    names no month, neither in the address of its PDF nor in its title;
    the title of the second names March of the year 0000, which
    [strptime] rejects; the third is dated.  The second index page has
    no links. *)
Definition unresolved_index : string :=
  "<a class='t' href='/node/301'>Advisory</a>"
  ++ "<a class='t' href='/node/302'>March 0000</a>"
  ++ "<a class='t' href='/node/303'>March 2024</a>".
Definition unresolved_page : string :=
  "<title>Rates advisory | Meralco</title>"
  ++ "<a href='/sites/default/files/rates_summary.pdf'>PDF</a>".
Definition year_zero_page : string :=
  "<title>Rates March 0000 | Meralco</title>"
  ++ "<a href='/sites/default/files/summary_of_rates.pdf'>PDF</a>".
Definition unresolved_net : nat -> string -> result string :=
  fun _ url =>
    if String.eqb url (archive_page 0) then Ok unresolved_index
    else if String.eqb url (site ++ "/node/301") then Ok unresolved_page
    else if String.eqb url (site ++ "/node/302") then Ok year_zero_page
    else if String.eqb url (site ++ "/node/303") then
      Ok ("<title>Rates for March 2024 | Meralco</title>"
          ++ "<a href='/sites/default/files/2024-03/rates_summary.pdf'>PDF</a>")
    else if String.eqb url (archive_page 1) then Ok "<p>No more entries</p>"
    else Raise (HTTPError 404).

Definition unresolved_item : discovery_item :=
  mkItem (site ++ "/sites/default/files/2024-03/rates_summary.pdf")
         (site ++ "/node/303") (Some "2024-03") "Rates for March 2024".

(** The world of that crawl once the index page is fetched, and the
    state and the world once the first detail page is passed. *)
Definition unresolved_world : world :=
  mkWorld [archive_page 0] [] [InfoCrawlPage 0 (archive_page 0)].
Definition unresolved_crawl : crawl :=
  mkCrawl [] ∅ {[site ++ "/node/301"]} false.
Definition unresolved_world' : world :=
  mkWorld [archive_page 0; site ++ "/node/301"] [1]
          [InfoCrawlPage 0 (archive_page 0)].

(** A feed of four entries: an advisory; a summary whose page has no
    PDF; a summary with a PDF, a publication date that names no month
    and a title that names none; and a dated summary. *)
Definition mixed_feed_url : string :=
  "https://company.meralco.com.ph/taxonomy/term/86/feed".
Definition mixed_xml : string :=
  "<rss><channel>"
  ++ "<item><title>Advisory on Rates March 2024</title>"
  ++ "<link>https://company.meralco.com.ph/node/401</link>"
  ++ "<pubDate>Mon, 04 Mar 2024 08:00:00 +0800</pubDate></item>"
  ++ "<item><title>Summary of Schedule of Rates March 2024</title>"
  ++ "<link>https://company.meralco.com.ph/node/402</link>"
  ++ "<pubDate>Mon, 04 Mar 2024 08:00:00 +0800</pubDate></item>"
  ++ "<item><title>Summary Schedule of Rates</title>"
  ++ "<link>https://company.meralco.com.ph/node/403</link>"
  ++ "<pubDate>yesterday</pubDate></item>"
  ++ "<item><title>Summary Schedule of Rates February 2024</title>"
  ++ "<link>https://company.meralco.com.ph/node/404</link>"
  ++ "<pubDate>Mon, 05 Feb 2024 08:00:00 +0800</pubDate></item>"
  ++ "</channel></rss>".
Definition mixed_entries : list rss_entry :=
  [mkEntry (Some "Advisory on Rates March 2024")
           (Some "https://company.meralco.com.ph/node/401")
           (Some "Mon, 04 Mar 2024 08:00:00 +0800");
   mkEntry (Some "Summary of Schedule of Rates March 2024")
           (Some "https://company.meralco.com.ph/node/402")
           (Some "Mon, 04 Mar 2024 08:00:00 +0800");
   mkEntry (Some "Summary Schedule of Rates")
           (Some "https://company.meralco.com.ph/node/403")
           (Some "yesterday");
   mkEntry (Some "Summary Schedule of Rates February 2024")
           (Some "https://company.meralco.com.ph/node/404")
           (Some "Mon, 05 Feb 2024 08:00:00 +0800")].
Definition mixed_net : nat -> string -> result string :=
  fun _ url =>
    if String.eqb url mixed_feed_url then Ok mixed_xml
    else if String.eqb url "https://company.meralco.com.ph/node/402" then
      Ok "<p>The document will follow.</p>"
    else if String.eqb url "https://company.meralco.com.ph/node/403" then
      Ok "<a href='/sites/default/files/rates_summary.pdf'>Download</a>"
    else if String.eqb url "https://company.meralco.com.ph/node/404" then
      Ok "<a href='/sites/default/files/2024-02/rates_summary.pdf'>Download</a>"
    else Raise (HTTPError 404).
Definition mixed_items : string -> result (list rss_entry) :=
  fun xml_data =>
    if String.eqb xml_data mixed_xml then Ok mixed_entries
    else Raise (Exception "ParseError").
Definition mixed_item : discovery_item :=
  mkItem "https://company.meralco.com.ph/sites/default/files/rates_summary.pdf"
         "https://company.meralco.com.ph/node/403"
         None
         "Summary Schedule of Rates".
Definition mixed_world : world :=
  mkWorld [mixed_feed_url; "https://company.meralco.com.ph/node/402";
           "https://company.meralco.com.ph/node/403"]
          [] [WarnNoPdf].

(** A server that answers the first request of a run with HTTP 503 and
    every later one with a body. *)
Definition flaky_net : nat -> string -> result string :=
  fun n _ => if (n =? 0)%nat then Raise (HTTPError 503) else Ok "rates".

(* ===================================================================== *)
(** * Properties of the numeric normaliser and of the row parser *)
(* ===================================================================== *)

(** [parse_negative] raises nothing but the [ValueError] of [float], and
    only for a text that, once cleaned, is wrapped in parentheses around
    something [float] does not read. *)
Lemma parse_negative_raises_only_in_parentheses (val_str : string) (e : exn) :
  parse_negative val_str = Raise e ->
  let cleaned := strip (replace (replace val_str "P" "") "," "") in
  e = ValueError
  /\ startswith cleaned "(" && endswith cleaned ")" = true
  /\ py_float (strip_chars cleaned "()") = None.
Proof.
  unfold parse_negative. destruct (negb (truthy val_str)); [discriminate|].
  simpl.
  destruct (startswith _ "(" && endswith _ ")"); simpl.
  - destruct (truthy _); [|discriminate].
    destruct (py_float _); [discriminate|]. intros H. injection H as <-. auto.
  - destruct (py_float _); discriminate.
Qed.

Section ValFacts.
Variable col_map : gmap string colval.
Variable clean_row : list string.

(** Indices at or past the end of the row, and the sentinel, add
    nothing to the running total. *)
Lemma val_sum_skips (l : list Z) (is_percent : bool) (total : float) :
  Forall (fun ix => ix = -1 \/ width clean_row <= ix) l ->
  val_sum clean_row (map PInt l) is_percent total = Ok total.
Proof.
  induction 1 as [|ix l Hix _ IH]; simpl; [reflexivity|].
  replace (negb (ix =? -1) && (ix <? width clean_row)) with false; [exact IH|].
  symmetry. destruct Hix as [-> | Hge]; [reflexivity|].
  apply andb_false_iff. right. apply Z.ltb_ge. exact Hge.
Qed.

Lemma py_index_in_range (i : Z) :
  0 <= i < width clean_row -> exists v, py_index clean_row i = Ok v.
Proof.
  unfold py_index, width. intros [Hlo Hhi].
  replace (i <? 0) with false by (symmetry; apply Z.ltb_ge; lia).
  replace ((0 <=? i) && (i <? Z.of_nat (length clean_row))) with true
    by (symmetry; apply andb_true_iff; split;
        [apply Z.leb_le | apply Z.ltb_lt]; lia).
  destruct (lookup_lt_is_Some_2 clean_row (Z.to_nat i)) as [v ->]; [lia|].
  eauto.
Qed.

(** Reading a cell inside the row raises at most the [ValueError] of
    [parse_negative]. *)
Lemma cell_value_in_range (i : Z) (is_percent : bool) (e : exn) :
  0 <= i < width clean_row ->
  cell_value clean_row i is_percent = Raise e -> e = ValueError.
Proof.
  intros Hi. unfold cell_value. destruct (py_index_in_range i Hi) as [v ->].
  simpl. intros H. apply parse_negative_raises_only_in_parentheses in H.
  apply H.
Qed.

Lemma val_sum_no_index_error (l : list pyval) (is_percent : bool) :
  Forall (fun x => match x with PInt ix => -1 <= ix | PStr _ => True end) l ->
  forall total, val_sum clean_row l is_percent total <> Raise IndexError.
Proof.
  induction 1 as [|x l Hx _ IH]; intros total; simpl; [discriminate|].
  destruct x as [ix|s]; [|discriminate].
  destruct (negb (ix =? -1) && (ix <? width clean_row)) eqn:Hin; [|apply IH].
  apply andb_true_iff in Hin as [Hne Hlt].
  apply negb_true_iff, Z.eqb_neq in Hne. apply Z.ltb_lt in Hlt.
  destruct (cell_value clean_row ix is_percent) as [v|e] eqn:Hv; simpl;
    [apply IH|].
  apply cell_value_in_range in Hv; [|lia]. subst e. discriminate.
Qed.
End ValFacts.

(** C10. For every row and every column mapping, [_val] yields 0.0,
    without raising, when the key is absent from the mapping, when its
    index is the sentinel -1 or lies at or past the end of the row, and
    when every index of a list-valued entry does; and whatever the
    width of the row, a mapping to column positions never makes [_val]
    raise [IndexError]. *)
Theorem val_out_of_range_is_zero
  (col_map : gmap string colval) (clean_row : list string)
  (key : string) (is_percent : bool) :
  ((col_map !! key = None
    \/ (exists i, col_map !! key = Some (Idx i)
                  /\ (i = -1 \/ width clean_row <= i))
    \/ (exists l, col_map !! key = Some (IdxList (map PInt l))
                  /\ Forall (fun ix => ix = -1 \/ width clean_row <= ix) l)) ->
   _val col_map clean_row key is_percent = Ok fzero)
  /\ (column_positions (col_map !! key) ->
      _val col_map clean_row key is_percent <> Raise IndexError).
Proof.
  unfold _val. split.
  - intros [-> | [(i & -> & Hi) | (l & -> & Hl)]]; simpl.
    + reflexivity.
    + replace ((i =? -1) || (width clean_row <=? i)) with true; [reflexivity|].
      symmetry. apply orb_true_iff. destruct Hi as [-> | Hi]; [left; reflexivity|].
      right. apply Z.leb_le. exact Hi.
    + apply val_sum_skips. exact Hl.
  - destruct (col_map !! key) as [[i|l]|]; simpl.
    + intros Hi. destruct ((i =? -1) || (width clean_row <=? i)) eqn:Hout;
        [discriminate|].
      apply orb_false_iff in Hout as [Hne Hlt].
      apply Z.eqb_neq in Hne. apply Z.leb_gt in Hlt.
      intros H. apply cell_value_in_range in H; [discriminate | lia].
    + intros Hl. apply val_sum_no_index_error. exact Hl.
    + discriminate.
Qed.

Lemma val_out_of_range_is_zero_witness :
  _val narrow_map ["0 TO 20 KWH"; "7.1"] "generation_charge" false = Ok fzero
  /\ _val narrow_map ["0 TO 20 KWH"; "7.1"] "supply_charge" false = Ok fzero
  /\ _val narrow_map ["0 TO 20 KWH"; "7.1"] "awat_charge" false = Ok fzero
  /\ _val narrow_map ["0 TO 20 KWH"; "7.1"] "metering_charge" false
     <> Raise IndexError.
Proof.
  split; [|split; [|split]].
  - apply val_out_of_range_is_zero. right. left. exists 5.
    split; [reflexivity | right; vm_compute; discriminate].
  - apply val_out_of_range_is_zero. right. right. exists [2; 7].
    split; [reflexivity|].
    constructor; [right; vm_compute; discriminate|].
    constructor; [right; vm_compute; discriminate|]. constructor.
  - apply val_out_of_range_is_zero. left. reflexivity.
  - apply val_out_of_range_is_zero. vm_compute. discriminate.
Defined.

Section RowFacts.
Variable col_map : gmap string colval.

Ltac split_vals :=
  repeat match goal with
         | |- context [rbind (_val ?m ?r ?k ?p) _] =>
             destruct (_val m r k p); simpl; try discriminate
         end.

(** A rate is built only from three core charges that passed the gate,
    with the bounds of its bracket. *)
Lemma build_rate_emits (clean_row : list string) (first : string) (x : rate) :
  build_rate col_map clean_row first = Ok (inr x) ->
  feq (generation_charge x) fzero = false
  /\ feq (distribution_charge x) fzero = false
  /\ feq (system_loss_charge x) fzero = false
  /\ consumption_bracket x = first
  /\ (min_kwh x, max_kwh x) = bracket_bounds first.
Proof.
  unfold build_rate.
  destruct (_val col_map clean_row "generation_charge" false) as [gen|]; simpl;
    [|discriminate].
  destruct (_val col_map clean_row "distribution_charge" false) as [dist|]; simpl;
    [|discriminate].
  destruct (_val col_map clean_row "system_loss_charge" false) as [sys_loss|]; simpl;
    [|discriminate].
  destruct (feq gen fzero || feq dist fzero || feq sys_loss fzero) eqn:Hgate;
    [discriminate|].
  apply orb_false_iff in Hgate as [Hgate Hsys].
  apply orb_false_iff in Hgate as [Hgen Hdist].
  destruct (bracket_bounds first) as [lo hi].
  split_vals. intros H. injection H as <-. simpl. auto.
Qed.

Lemma parse_row_emits (clean_row : list string) (first : string) (x : rate) :
  parse_row col_map clean_row first = Emit x ->
  build_rate col_map clean_row first = Ok (inr x).
Proof.
  unfold parse_row. destruct (missing_keys col_map); [|discriminate].
  destruct (build_rate col_map clean_row first) as [[d|r]|e]; try discriminate.
  intros H. injection H as ->. reflexivity.
Qed.

Lemma row_step_effect (r : row) (st : extraction) :
  row_effect col_map r st (row_step col_map r st).
Proof.
  unfold row_step. destruct (map clean_cell r) as [|first rest]; [constructor|].
  destruct (negb (existsb cell_truthy r)); [constructor|].
  destruct (is_marker first); [constructor|].
  destruct (is_bracket first); [|constructor].
  destruct (parse_row col_map (first :: rest) first) eqn:Hp;
    econstructor; eassumption.
Qed.

(** Whatever holds of every rate the parser can emit holds of the
    output of the row loop. *)
Lemma row_loop_rates_inv (P : rate -> Prop) :
  (forall clean_row first x,
      parse_row col_map clean_row first = Emit x -> P x) ->
  forall rows st,
    Forall P (rates st) -> Forall P (rates (row_loop col_map rows st)).
Proof.
  intros HP rows. induction rows as [|r rows IH]; intros st Hst; simpl; [exact Hst|].
  destruct (row_step_effect r st) as [| |clean_row first x Hx|clean_row first d Hd];
    simpl; try (apply IH; simpl); try exact Hst.
  apply Forall_app. split; [exact Hst|].
  constructor; [|constructor]. eapply HP. exact Hx.
Qed.

(** When the parser emits nothing, the row loop leaves the output as it
    found it. *)
Lemma row_loop_rates_same :
  (forall clean_row first x, parse_row col_map clean_row first <> Emit x) ->
  forall rows st, rates (row_loop col_map rows st) = rates st.
Proof.
  intros Hno rows. induction rows as [|r rows IH]; intros st; simpl; [reflexivity|].
  destruct (row_step_effect r st) as [| |clean_row first x Hx|clean_row first d Hd];
    simpl; try reflexivity; try (rewrite IH; reflexivity).
  exfalso. eapply Hno. exact Hx.
Qed.
End RowFacts.

Lemma table_loop_rates_inv (P : rate -> Prop) :
  (forall col_map clean_row first x,
      parse_row col_map clean_row first = Emit x -> P x) ->
  forall tables st,
    Forall P (rates st) -> Forall P (rates (table_loop tables st)).
Proof.
  intros HP tables. induction tables as [|t tables IH]; intros st Hst; simpl;
    [exact Hst|].
  destruct (stop_extracting st); [exact Hst|].
  apply IH. unfold table_step. apply row_loop_rates_inv; [apply HP | exact Hst].
Qed.

Lemma pdf_page_loop_rates_inv (P : rate -> Prop) :
  (forall col_map clean_row first x,
      parse_row col_map clean_row first = Emit x -> P x) ->
  forall pages st,
    Forall P (rates st) -> Forall P (rates (pdf_page_loop pages st)).
Proof.
  intros HP pages. induction pages as [|tables pages IH]; intros st Hst; simpl;
    [exact Hst|].
  destruct (stop_extracting st); [exact Hst|].
  apply IH. apply table_loop_rates_inv; [exact HP | exact Hst].
Qed.

(** A bracket starts with a digit or with the letter O, the marker with
    the letter G. *)
Lemma bracket_not_marker (first : string) :
  is_bracket first = true -> is_marker first = false.
Proof.
  destruct first as [|c rest]; [reflexivity|]. intros H.
  destruct c as [[] [] [] [] [] [] [] []];
    try (vm_compute; reflexivity); vm_compute in H; discriminate.
Qed.

(** A bracket row reaches the parser. *)
Lemma bracket_row_step (col_map : gmap string colval) (r : row) (st : extraction) :
  bracket_row r = true ->
  row_step col_map r st
  = match parse_row col_map (map clean_cell r) (hd "" (map clean_cell r)) with
    | Emit x =>
        (mkExtraction (rates st ++ [x]) (last_col_map st) (diags st)
                      (stop_extracting st), true)
    | Reject d =>
        (mkExtraction (rates st) (last_col_map st) (diags st ++ [d])
                      (stop_extracting st), true)
    end.
Proof.
  destruct r as [|c cells]; [discriminate|]. cbn [bracket_row]. intros Hb.
  assert (Hc : cell_truthy c = true).
  { unfold clean_cell in Hb. destruct (cell_truthy c); [reflexivity|].
    vm_compute in Hb. discriminate. }
  unfold row_step. cbn [map hd existsb]. rewrite Hc. cbn [orb negb].
  rewrite (bracket_not_marker _ Hb), Hb. reflexivity.
Qed.

(** C7. A bracket row one of whose three core charges parses to a value
    equal to 0.0 is rejected with a diagnostic and adds no rate row,
    whatever its other cells hold (the diagnostic is the one of the
    sanity gate when the mapping is complete and the three charges
    parse), and every rate row returned by [extract_residential_rates]
    has generation, distribution and system-loss charges different from
    0.0. *)
Theorem sanity_gate
  (col_map : gmap string colval) (r : row) (st : extraction) (doc : pdf) :
  let clean_row := map clean_cell r in
  let rejected (d : diag) :=
    (mkExtraction (rates st) (last_col_map st) (diags st ++ [d])
                  (stop_extracting st), true) in
  (forall key zero,
      bracket_row r = true ->
      In key core_three ->
      _val col_map clean_row key false = Ok zero ->
      feq zero fzero = true ->
      exists d, row_step col_map r st = rejected d)
  /\ (forall gen dist sys_loss,
         bracket_row r = true ->
         missing_keys col_map = [] ->
         _val col_map clean_row "generation_charge" false = Ok gen ->
         _val col_map clean_row "distribution_charge" false = Ok dist ->
         _val col_map clean_row "system_loss_charge" false = Ok sys_loss ->
         feq gen fzero || feq dist fzero || feq sys_loss fzero = true ->
         row_step col_map r st
         = rejected (ErrZeroCore (hd "" clean_row) gen dist sys_loss))
  /\ (forall x,
         In x (extract_residential_rates doc) ->
         feq (generation_charge x) fzero = false
         /\ feq (distribution_charge x) fzero = false
         /\ feq (system_loss_charge x) fzero = false).
Proof.
  intros clean_row rejected. split; [|split].
  - intros key zero Hbr Hkey Hval Hzero.
    rewrite (bracket_row_step col_map r st Hbr). fold clean_row.
    assert (Hrej : exists d,
               parse_row col_map clean_row (hd "" clean_row) = Reject d).
    { unfold parse_row. destruct (missing_keys col_map); [|eexists; reflexivity].
      unfold build_rate.
      destruct (_val col_map clean_row "generation_charge" false)
        as [gen|] eqn:Hg; simpl; [|eexists; reflexivity].
      destruct (_val col_map clean_row "distribution_charge" false)
        as [dist|] eqn:Hd; simpl; [|eexists; reflexivity].
      destruct (_val col_map clean_row "system_loss_charge" false)
        as [sys_loss|] eqn:Hs; simpl; [|eexists; reflexivity].
      replace (feq gen fzero || feq dist fzero || feq sys_loss fzero) with true;
        [eexists; reflexivity|].
      symmetry. simpl in Hkey. destruct Hkey as [<- | [<- | [<- | []]]].
      + rewrite Hg in Hval. injection Hval as ->. rewrite Hzero. reflexivity.
      + rewrite Hd in Hval. injection Hval as ->. rewrite Hzero.
        rewrite orb_true_r. reflexivity.
      + rewrite Hs in Hval. injection Hval as ->. rewrite Hzero.
        apply orb_true_r. }
    destruct Hrej as [d ->]. exists d. reflexivity.
  - intros gen dist sys_loss Hbr Hmiss Hg Hd Hs Hgate.
    rewrite (bracket_row_step col_map r st Hbr). fold clean_row.
    unfold parse_row, build_rate. rewrite Hmiss, Hg, Hd, Hs. simpl.
    rewrite Hgate. reflexivity.
  - intros x Hx.
    assert (Hall : Forall (fun r => feq (generation_charge r) fzero = false
                                    /\ feq (distribution_charge r) fzero = false
                                    /\ feq (system_loss_charge r) fzero = false)
                          (extract_residential_rates doc)).
    { unfold extract_residential_rates, run_extraction.
      apply pdf_page_loop_rates_inv; [|constructor].
      intros cm cr f y Hy. apply parse_row_emits, build_rate_emits in Hy.
      tauto. }
    rewrite Forall_forall in Hall. apply Hall. apply list_elem_of_In. exact Hx.
Qed.

Lemma sanity_gate_witness :
  (exists d,
      row_step sample_map (map Some zero_row) extraction0
      = (mkExtraction [] None [d] false, true))
  /\ match sample_rates with
     | x :: _ => feq (generation_charge x) fzero = false
                 /\ feq (distribution_charge x) fzero = false
                 /\ feq (system_loss_charge x) fzero = false
     | [] => False
     end.
Proof.
  destruct (sanity_gate sample_map (map Some zero_row) extraction0
                        [[sample_table]])
    as (Hrow & _ & Hdoc).
  split.
  - apply (Hrow "generation_charge" fzero).
    + vm_compute. reflexivity.
    + left. reflexivity.
    + vm_compute. reflexivity.
    + reflexivity.
  - change (extract_residential_rates [[sample_table]]) with sample_rates in Hdoc.
    unfold sample_rates in *. apply Hdoc. left. reflexivity.
Defined.

(** C6. When the column mapping of a table lacks one of the eight core
    keys, every bracket row of the table is rejected with the diagnostic
    that lists the missing keys (exactly the core keys absent from the
    mapping), and the table adds no rate row to the output. *)
Theorem missing_core_rejects_table (t : table) (st : extraction) :
  (exists k, In k required_core /\ _build_column_index_map t !! k = None) ->
  let col_map := _build_column_index_map t in
  rates (table_step t st) = rates st
  /\ (forall k, In k (missing_keys col_map)
                <-> In k required_core /\ col_map !! k = None)
  /\ (forall r st',
         bracket_row r = true ->
         row_step col_map r st'
         = (mkExtraction (rates st') (last_col_map st')
                         (diags st' ++ [ErrMissing (missing_keys col_map) col_map])
                         (stop_extracting st'), true)).
Proof.
  intros (k & Hk & Hnone) col_map.
  assert (Hmiss_spec : forall k', In k' (missing_keys col_map)
                                  <-> In k' required_core /\ col_map !! k' = None).
  { intros k'. unfold missing_keys. rewrite filter_In. unfold mapped.
    destruct (col_map !! k'); simpl; intuition congruence. }
  assert (Hmiss : exists k0 ks, missing_keys col_map = k0 :: ks).
  { assert (Hin : In k (missing_keys col_map)) by (apply Hmiss_spec; auto).
    destruct (missing_keys col_map) as [|k0 ks]; [destruct Hin | eauto]. }
  destruct Hmiss as (k0 & ks & Hmiss).
  assert (Hrej : forall clean_row first,
             parse_row col_map clean_row first
             = Reject (ErrMissing (missing_keys col_map) col_map)).
  { intros clean_row first. unfold parse_row. rewrite Hmiss. reflexivity. }
  split; [|split].
  - unfold table_step. fold col_map. rewrite row_loop_rates_same; [reflexivity|].
    intros clean_row first x. rewrite Hrej. discriminate.
  - exact Hmiss_spec.
  - intros r st' Hbr. rewrite (bracket_row_step col_map r st' Hbr), Hrej.
    reflexivity.
Qed.

Lemma missing_core_rejects_table_witness :
  rates (table_step unmetered_table extraction0) = []
  /\ row_step (_build_column_index_map unmetered_table)
              (map Some ["0 TO 20 KWH"; "7.1"; "0.9"; "0.6"; "1.2"; "0.5";
                         "(0.01)"; "100%"]) extraction0
     = (mkExtraction [] None
          [ErrMissing ["metering_charge"]
                      (_build_column_index_map unmetered_table)] false, true).
Proof.
  assert (H : exists k, In k required_core
                        /\ _build_column_index_map unmetered_table !! k = None).
  { exists "metering_charge". split; [vm_compute; tauto | vm_compute; reflexivity]. }
  destruct (missing_core_rejects_table unmetered_table extraction0 H)
    as (Hrates & _ & Hrow).
  split; [exact Hrates|].
  rewrite Hrow by (vm_compute; reflexivity).
  vm_compute. reflexivity.
Defined.

(** ** The terminal marker *)

Lemma marker_row_step (col_map : gmap string colval) (m : row) (st : extraction) :
  marker_row m = true ->
  row_step col_map m st
  = (mkExtraction (rates st) (last_col_map st) (diags st) true, false).
Proof.
  destruct m as [|c rest]; simpl; [discriminate|]. intros Hm.
  unfold row_step. simpl.
  assert (Hc : cell_truthy c = true).
  { unfold clean_cell in Hm. destruct (cell_truthy c); [reflexivity|].
    vm_compute in Hm. discriminate. }
  rewrite Hc, Hm. reflexivity.
Qed.

Lemma row_loop_marker (col_map : gmap string colval) (m : row) (R1 R2 : list row) :
  marker_row m = true ->
  forall st,
    rates (row_loop col_map (R1 ++ m :: R2) st) = rates (row_loop col_map R1 st)
    /\ stop_extracting (row_loop col_map (R1 ++ m :: R2) st) = true.
Proof.
  intros Hm. induction R1 as [|r R1 IH]; intros st; simpl.
  - rewrite (marker_row_step col_map m st Hm). simpl. auto.
  - destruct (row_step_effect col_map r st); simpl; auto.
Qed.

Lemma table_loop_stopped (tables : list table) (st : extraction) :
  stop_extracting st = true -> table_loop tables st = st.
Proof. intros H. destruct tables; simpl; [|rewrite H]; reflexivity. Qed.

Lemma pdf_page_loop_stopped (pages : pdf) (st : extraction) :
  stop_extracting st = true -> pdf_page_loop pages st = st.
Proof. intros H. destruct pages; simpl; [|rewrite H]; reflexivity. Qed.

Lemma table_loop_app (A B : list table) (st : extraction) :
  table_loop (A ++ B) st = table_loop B (table_loop A st).
Proof.
  revert st. induction A as [|t A IH]; intros st; simpl; [reflexivity|].
  destruct (stop_extracting st) eqn:Hs; [|apply IH].
  symmetry. apply table_loop_stopped. exact Hs.
Qed.

Lemma pdf_page_loop_app (A B : pdf) (st : extraction) :
  pdf_page_loop (A ++ B)%list st = pdf_page_loop B (pdf_page_loop A st).
Proof.
  revert st. induction A as [|t A IH]; intros st; simpl; [reflexivity|].
  destruct (stop_extracting st) eqn:Hs; [|apply IH].
  symmetry. apply pdf_page_loop_stopped. exact Hs.
Qed.

(** C5. Let a row whose first cell begins with GENERAL SERVICE (in any
    letter case) stand in a table [t] after the rows [R1], after the
    tables [T1] of its page and after the pages [P1].  The output is the
    one accumulated over [P1], [T1] and [R1]: the rows [R2] that follow
    the marker in [t], the later tables [T2] of the page and the later
    pages [P2] add no rate row, whatever they hold. *)
Theorem general_service_is_terminal
  (P1 : pdf) (T1 : list table) (R1 : list row) (m : row) (R2 : list row)
  (T2 : list table) (P2 : pdf) :
  marker_row m = true ->
  let t := (R1 ++ m :: R2)%list in
  let col_map := _build_column_index_map t in
  let st1 := table_loop T1 (pdf_page_loop P1 extraction0) in
  extract_residential_rates (P1 ++ (T1 ++ t :: T2) :: P2)%list
  = rates (if stop_extracting st1 then st1
           else row_loop col_map R1 (with_col_map col_map st1)).
Proof.
  intros Hm t col_map st1.
  unfold extract_residential_rates, run_extraction.
  rewrite pdf_page_loop_app. simpl.
  set (st0 := pdf_page_loop P1 extraction0) in *.
  destruct (stop_extracting st0) eqn:Hs0.
  - subst st1. rewrite (table_loop_stopped T1 st0 Hs0), Hs0. reflexivity.
  - rewrite table_loop_app. fold st1. simpl.
    destruct (stop_extracting st1) eqn:Hs1.
    + rewrite pdf_page_loop_stopped by exact Hs1. reflexivity.
    + unfold table_step. fold t. fold col_map.
      destruct (row_loop_marker col_map m R1 R2 Hm (with_col_map col_map st1))
        as [Hrates Hstop].
      fold t in Hrates, Hstop.
      rewrite pdf_page_loop_stopped; rewrite table_loop_stopped; auto.
Qed.

Lemma general_service_is_terminal_witness :
  extract_residential_rates [[sample_table]; [sample_table]] = sample_rates.
Proof.
  pose proof (general_service_is_terminal [] [] (firstn 5 sample_table)
                (map Some ["GENERAL SERVICE A"; ""; ""; ""; ""; ""; ""; ""; ""])
                (skipn 6 sample_table) [] [[sample_table]]) as H.
  assert (Hm : marker_row
                 (map Some ["GENERAL SERVICE A"; ""; ""; ""; ""; ""; ""; ""; ""])
               = true) by (vm_compute; reflexivity).
  specialize (H Hm). vm_compute in H |- *. exact H.
Defined.

(** ** Bracket bounds *)

Section TextFacts.

Ltac by_cases c :=
  destruct c as [[] [] [] [] [] [] [] []]; vm_compute; try reflexivity;
  try discriminate; auto.

Lemma upper_char_digit (c : ascii) : is_digit c = true -> upper_char c = c.
Proof. by_cases c. Qed.

Lemma upper_char_space (c : ascii) : is_space c = true -> upper_char c = c.
Proof. by_cases c. Qed.

Lemma space_not_digit (c : ascii) : is_space c = true -> is_digit c = false.
Proof. by_cases c. Qed.

Lemma upper_char_keeps_digit (c : ascii) : is_digit (upper_char c) = is_digit c.
Proof. by_cases c. Qed.

Lemma digit_not_V (c : ascii) : is_digit c = true -> ascii_eqb "V" c = false.
Proof. by_cases c. Qed.

Lemma space_not_V (c : ascii) : is_space c = true -> ascii_eqb "V" c = false.
Proof. by_cases c. Qed.

Lemma append_assoc (a b c : string) : (a ++ b) ++ c = a ++ (b ++ c).
Proof. induction a as [|x a IH]; simpl; [reflexivity | rewrite IH; reflexivity]. Qed.

Lemma append_nil_r (a : string) : a ++ "" = a.
Proof. induction a as [|x a IH]; simpl; [reflexivity | rewrite IH; reflexivity]. Qed.

Lemma upper_app (a b : string) : upper (a ++ b) = upper a ++ upper b.
Proof.
  unfold upper. induction a as [|x a IH]; simpl; [reflexivity | rewrite IH; reflexivity].
Qed.

Lemma upper_digits (s : string) : all_digits s = true -> upper s = s.
Proof.
  unfold upper. induction s as [|c s IH]; simpl; [reflexivity|].
  intros H. apply andb_true_iff in H as [Hc Hs].
  rewrite upper_char_digit, IH; auto.
Qed.

Lemma upper_spaces (s : string) : all_space s = true -> upper s = s.
Proof.
  unfold upper. induction s as [|c s IH]; simpl; [reflexivity|].
  intros H. apply andb_true_iff in H as [Hc Hs].
  rewrite upper_char_space, IH; auto.
Qed.

Lemma no_digit_app (a b : string) :
  no_digit (a ++ b) = no_digit a && no_digit b.
Proof.
  induction a as [|x a IH]; simpl; [reflexivity|].
  rewrite IH, andb_assoc. reflexivity.
Qed.

Lemma no_digit_spaces (s : string) : all_space s = true -> no_digit s = true.
Proof.
  induction s as [|c s IH]; simpl; [reflexivity|].
  intros H. apply andb_true_iff in H as [Hc Hs].
  rewrite (space_not_digit c Hc), IH; auto.
Qed.

Lemma char_in_app (c : ascii) (a b : string) :
  char_in c (a ++ b) = char_in c a || char_in c b.
Proof.
  induction a as [|x a IH]; simpl; [reflexivity|].
  rewrite IH, orb_assoc. reflexivity.
Qed.

Lemma char_in_digits (s : string) : all_digits s = true -> char_in "V" s = false.
Proof.
  induction s as [|c s IH]; cbn [char_in all_digits]; [reflexivity|].
  intros H. apply andb_true_iff in H as [Hc Hs].
  rewrite (digit_not_V c Hc), IH; auto.
Qed.

Lemma char_in_spaces (s : string) : all_space s = true -> char_in "V" s = false.
Proof.
  induction s as [|c s IH]; cbn [char_in all_space]; [reflexivity|].
  intros H. apply andb_true_iff in H as [Hc Hs].
  rewrite (space_not_V c Hc), IH; auto.
Qed.

(** A text that contains OVER contains the letter V. *)
Lemma contains_OVER_has_V (s : string) :
  contains s "OVER" = true -> char_in "V" s = true.
Proof.
  induction s as [|c s IH]; [vm_compute; discriminate|].
  intros H. change (contains (String c s) "OVER")
    with (String.prefix "OVER" (String c s) || contains s "OVER") in H.
  apply orb_true_iff in H as [Hp | Hc].
  - cbn [String.prefix] in Hp.
    destruct (Ascii.ascii_dec "O" c) as [<-|]; [|discriminate].
    destruct s as [|d s]; cbn [String.prefix] in Hp; [discriminate|].
    destruct (Ascii.ascii_dec "V" d) as [<-|]; [|discriminate].
    reflexivity.
  - simpl. rewrite (IH Hc). apply orb_true_r.
Qed.

(** ** The digit runs of a text built from runs and separators *)

Lemma digit_runs_digits (D : string) :
  all_digits D = true ->
  forall run s, digit_runs run (D ++ s) = digit_runs (run ++ D) s.
Proof.
  induction D as [|c D IH]; simpl; intros H run s.
  - rewrite append_nil_r. reflexivity.
  - apply andb_true_iff in H as [Hc HD]. rewrite Hc, IH by exact HD.
    rewrite append_assoc. reflexivity.
Qed.

Lemma digit_runs_gap (X : string) :
  no_digit X = true ->
  forall s, digit_runs "" (X ++ s) = digit_runs "" s.
Proof.
  induction X as [|c X IH]; simpl; intros H s; [reflexivity|].
  apply andb_true_iff in H as [Hc HX].
  apply negb_true_iff in Hc. rewrite Hc. simpl. apply IH. exact HX.
Qed.

Lemma digit_runs_run_gap (D X : string) :
  all_digits D = true -> truthy D = true ->
  no_digit X = true -> truthy X = true ->
  forall s, digit_runs "" (D ++ X ++ s) = D :: digit_runs "" s.
Proof.
  intros HD HDne HX HXne s.
  rewrite digit_runs_digits by exact HD. simpl.
  destruct X as [|c X]; [discriminate|]. simpl in *.
  apply andb_true_iff in HX as [Hc HX'].
  apply negb_true_iff in Hc. rewrite Hc.
  destruct D; [discriminate|]. simpl.
  rewrite digit_runs_gap by exact HX'. reflexivity.
Qed.

Lemma truthy_app_r (a b : string) : truthy b = true -> truthy (a ++ b) = true.
Proof. destruct a; simpl; auto. Qed.

Lemma truthy_app_l (a b : string) : truthy a = true -> truthy (a ++ b) = true.
Proof. destruct a; simpl; [discriminate | reflexivity]. Qed.
End TextFacts.

Ltac gap_text :=
  rewrite ?no_digit_app;
  repeat match goal with
         | H : all_space ?w = true |- context [no_digit ?w] =>
             rewrite (no_digit_spaces w H)
         end;
  reflexivity.

(** The bounds read from a cell of the form A TO B KWH. *)
Lemma bracket_bounds_range (A w1 T w2 B w3 K : string) :
  digits_text A -> digits_text B ->
  all_space w1 = true -> all_space w2 = true -> all_space w3 = true ->
  upper T = "TO" -> upper K = "KWH" ->
  bracket_bounds (A ++ w1 ++ T ++ w2 ++ B ++ w3 ++ K)
  = (int_of A, Some (int_of B)).
Proof.
  intros [HAne HA] [HBne HB] H1 H2 H3 HT HK.
  unfold bracket_bounds.
  rewrite !upper_app, HT, HK, (upper_spaces w1), (upper_spaces w2),
    (upper_spaces w3), (upper_digits A), (upper_digits B) by assumption.
  assert (Hruns :
            digit_runs "" (A ++ w1 ++ "TO" ++ w2 ++ B ++ w3 ++ "KWH") = [A; B]).
  { replace (A ++ w1 ++ "TO" ++ w2 ++ B ++ w3 ++ "KWH")
      with (A ++ (w1 ++ "TO" ++ w2) ++ B ++ (w3 ++ "KWH") ++ "").
    - rewrite digit_runs_run_gap;
        [|assumption|assumption|gap_text
         |apply truthy_app_r, truthy_app_l; reflexivity].
      rewrite digit_runs_run_gap;
        [reflexivity|assumption|assumption|gap_text
        |apply truthy_app_r; reflexivity].
    - rewrite !append_assoc, append_nil_r. reflexivity. }
  rewrite Hruns.
  destruct (contains (A ++ w1 ++ "TO" ++ w2 ++ B ++ w3 ++ "KWH") "OVER") eqn:Hc.
  - apply contains_OVER_has_V in Hc.
    rewrite !char_in_app, (char_in_digits A), (char_in_digits B),
      (char_in_spaces w1), (char_in_spaces w2), (char_in_spaces w3)
      in Hc by assumption.
    vm_compute in Hc. discriminate.
  - reflexivity.
Qed.

(** The bounds read from a cell of the form OVER N KWH. *)
Lemma bracket_bounds_over (O w1 N w2 K : string) :
  digits_text N ->
  all_space w1 = true -> all_space w2 = true ->
  upper O = "OVER" -> upper K = "KWH" ->
  bracket_bounds (O ++ w1 ++ N ++ w2 ++ K) = (int_of N + 1, None).
Proof.
  intros [HNne HN] H1 H2 HO HK.
  unfold bracket_bounds.
  rewrite !upper_app, HO, HK, (upper_spaces w1), (upper_spaces w2),
    (upper_digits N) by assumption.
  assert (Hruns : digit_runs "" ("OVER" ++ w1 ++ N ++ w2 ++ "KWH") = [N]).
  { replace ("OVER" ++ w1 ++ N ++ w2 ++ "KWH")
      with (("OVER" ++ w1) ++ N ++ (w2 ++ "KWH") ++ "").
    - rewrite digit_runs_gap by gap_text.
      rewrite digit_runs_run_gap;
        [reflexivity|assumption|assumption|gap_text
        |apply truthy_app_r; reflexivity].
    - rewrite !append_assoc, append_nil_r. reflexivity. }
  rewrite Hruns.
  assert (Hc : forall r, contains ("OVER" ++ r) "OVER" = true)
    by (intros r; destruct r; reflexivity).
  rewrite Hc. reflexivity.
Qed.

(** C9. Every rate row the extraction returns carries the bounds read
    from its bracket cell: for a cell of the form A TO B KWH,
    [min_kwh = A] and [max_kwh = B]; for a cell of the form OVER N KWH,
    [min_kwh = N + 1] and no upper bound.  The forms allow any letter
    case and any amount of whitespace between the parts.  In particular
    100 TO 200 KWH gives (100, 200) and OVER 900 KWH gives (901, None). *)
Theorem bracket_bounds_of_accepted_row (doc : pdf) (x : rate) :
  In x (extract_residential_rates doc) ->
  (forall A w1 T w2 B w3 K,
      consumption_bracket x = A ++ w1 ++ T ++ w2 ++ B ++ w3 ++ K ->
      digits_text A -> digits_text B ->
      all_space w1 = true -> all_space w2 = true -> all_space w3 = true ->
      upper T = "TO" -> upper K = "KWH" ->
      min_kwh x = int_of A /\ max_kwh x = Some (int_of B))
  /\ (forall O w1 N w2 K,
         consumption_bracket x = O ++ w1 ++ N ++ w2 ++ K ->
         digits_text N ->
         all_space w1 = true -> all_space w2 = true ->
         upper O = "OVER" -> upper K = "KWH" ->
         min_kwh x = int_of N + 1 /\ max_kwh x = None)
  /\ (consumption_bracket x = "100 TO 200 KWH" ->
      min_kwh x = 100 /\ max_kwh x = Some 200)
  /\ (consumption_bracket x = "OVER 900 KWH" ->
      min_kwh x = 901 /\ max_kwh x = None).
Proof.
  intros Hx.
  assert (Hall : Forall (fun y => (min_kwh y, max_kwh y)
                                  = bracket_bounds (consumption_bracket y))
                        (extract_residential_rates doc)).
  { unfold extract_residential_rates, run_extraction.
    apply pdf_page_loop_rates_inv; [|constructor].
    intros cm cr f y Hy. apply parse_row_emits, build_rate_emits in Hy.
    destruct Hy as (_ & _ & _ & -> & Hb). exact Hb. }
  rewrite Forall_forall in Hall. apply list_elem_of_In in Hx.
  specialize (Hall x Hx).
  assert (Hread : forall lo hi,
             bracket_bounds (consumption_bracket x) = (lo, hi) ->
             min_kwh x = lo /\ max_kwh x = hi).
  { intros lo hi E. rewrite E in Hall. injection Hall as -> ->. auto. }
  split; [|split; [|split]].
  - intros A w1 T w2 B w3 K E. intros. apply Hread. rewrite E.
    apply bracket_bounds_range; assumption.
  - intros O w1 N w2 K E. intros. apply Hread. rewrite E.
    apply bracket_bounds_over; assumption.
  - intros E. apply Hread. rewrite E. reflexivity.
  - intros E. apply Hread. rewrite E. reflexivity.
Qed.

Lemma bracket_bounds_of_accepted_row_witness :
  match sample_rates with
  | _ :: x :: _ =>
      consumption_bracket x = "100 TO 200 KWH"
      /\ min_kwh x = int_of "100" /\ max_kwh x = Some (int_of "200")
  | _ => False
  end.
Proof.
  pose proof (fun x => bracket_bounds_of_accepted_row [[sample_table]] x) as H.
  change (extract_residential_rates [[sample_table]]) with sample_rates in H.
  unfold sample_rates in *.
  split; [reflexivity|].
  match goal with
  | |- min_kwh ?x = _ /\ _ =>
      destruct (H x (or_intror (or_introl eq_refl))) as (Hrange & _)
  end.
  apply (Hrange "100" " " "TO" " " "200" " " "KWH");
    try reflexivity; split; reflexivity.
Defined.

(* ===================================================================== *)
(** * Failing inputs of the numeric normaliser and of the column mapper *)
(* ===================================================================== *)

(** C1. [parse_negative] is not total: on a text in accounting
    parentheses whose inside is not a number the [ValueError] of [float]
    escapes, with or without a currency prefix and thousands separators,
    whereas the same text without parentheses, and the empty text, parse
    to 0.0. *)
Theorem parse_negative_raises_inside_parentheses :
  parse_negative "(abc)" = Raise ValueError
  /\ parse_negative "P(n,a)" = Raise ValueError
  /\ parse_negative "abc" = Ok fzero
  /\ parse_negative "" = Ok fzero.
Proof. vm_compute. repeat split; reflexivity. Qed.

(** A header that meets no rule and is not noise is appended to
    [unmapped_headers]. *)
Lemma map_header_records (i : nat) (text : string) (mapping : gmap string colval) :
  truthy text = true -> rule_hit text = false -> is_noise text = false ->
  map_header i text mapping
  = <["unmapped_headers" := IdxList (unmapped_of mapping ++ [PStr text])]> mapping.
Proof.
  intros Ht Hr Hn. unfold rule_hit in Hr. unfold is_noise in Hn.
  repeat match goal with
         | H : _ || _ = false |- _ => apply orb_false_iff in H as [H ?]
         end.
  unfold map_header. rewrite Ht. cbn [negb].
  repeat match goal with
         | H : ?b = false |- context [if ?b then _ else _] => rewrite H
         | H : ?a = false, H' : ?b = false
           |- context [if ?a || ?b then _ else _] => rewrite H, H'; cbn [orb]
         end.
  repeat match goal with
         | H : ?b = false |- context [negb ?b] => rewrite H
         end.
  reflexivity.
Qed.

(** No later header removes a recorded one. *)
Lemma map_header_keeps (i : nat) (text : string) (mapping : gmap string colval)
      (x : pyval) :
  In x (unmapped_of mapping) -> In x (unmapped_of (map_header i text mapping)).
Proof.
  intros Hx. unfold map_header.
  repeat match goal with
         | |- context [if ?b then _ else _] => destruct b
         end;
    try exact Hx;
    unfold unmapped_of in *;
    try (rewrite lookup_insert_ne by discriminate; exact Hx).
  rewrite lookup_insert_eq. apply in_or_app. left. exact Hx.
Qed.

Lemma map_headers_keeps (normalized : list string) :
  forall (i : nat) (mapping : gmap string colval) (x : pyval),
    In x (unmapped_of mapping) ->
    In x (unmapped_of (map_headers i normalized mapping)).
Proof.
  induction normalized as [|text rest IH]; intros i mapping x Hx; simpl;
    [exact Hx|].
  apply IH, map_header_keeps, Hx.
Qed.

(** Apart from the headers that contain reset, every non-empty
    normalized header that meets no rule and is not noise ends up in
    [unmapped_headers]. *)
Lemma unmatched_headers_are_recorded (normalized : list string) :
  forall (i j : nat) (mapping : gmap string colval) (text : string),
    normalized !! j = Some text ->
    truthy text = true -> rule_hit text = false -> is_noise text = false ->
    In (PStr text) (unmapped_of (map_headers i normalized mapping)).
Proof.
  induction normalized as [|t rest IH]; intros i j mapping text Hj Ht Hr Hn;
    [discriminate|].
  destruct j as [|j]; simpl in Hj |- *.
  - injection Hj as ->. apply map_headers_keeps.
    rewrite map_header_records by assumption.
    unfold unmapped_of at 1. rewrite lookup_insert_eq.
    apply in_or_app. right. left. reflexivity.
  - eapply IH; eassumption.
Qed.

(** C8. A header that contains reset without onetime, one time or
    regulatory is classified into no key and yet is not recorded in
    [unmapped_headers]; the header next to it, which matches no rule at
    all, is. *)
Theorem unqualified_reset_header_is_dropped :
  map normalize (header_strings_of [[Some "Reset Fee"; Some "Other"]] 2)
  = ["reset fee"; "other"]
  /\ _build_column_index_map [[Some "Reset Fee"; Some "Other"]]
     = <["unmapped_headers" := IdxList [PStr "other"]]> ∅.
Proof. split; vm_compute; reflexivity. Qed.

(* ===================================================================== *)
(** * Properties of the fetch client *)
(* ===================================================================== *)

Section ClientFacts.
Variable net : nat -> string -> result string.
Variable retries : nat.
Variable url : string.

Lemma retryable_spec (code : Z) :
  retryable code = true <-> code = 429 \/ 500 <= code < 600.
Proof.
  unfold retryable. rewrite orb_true_iff, andb_true_iff, Z.eqb_eq,
    Z.leb_le, Z.ltb_lt. tauto.
Qed.

(** One attempt that fails transiently: warn, sleep, go on. *)
Lemma fetch_loop_transient (attempt : nat) (rest : list nat) (w : world) :
  transient_failure (net (length (requested w)) url) ->
  exists ev,
    fetch_loop net retries url (attempt :: rest) w
    = fetch_loop net retries url rest
        (mkWorld (requested w ++ [url])
                 (slept w ++ [2 ^ Z.of_nat attempt])
                 (logged w ++ [ev])).
Proof.
  intros Ht. simpl. unfold urlopen.
  inversion Ht as [Hr | status Hstatus Hr | Hr].
  - simpl. eexists. reflexivity.
  - assert (Hre : retryable status = true) by (apply retryable_spec; auto).
    rewrite Hre. eexists. reflexivity.
  - eexists. reflexivity.
Qed.

(** One attempt that ends the loop: the body is returned, or the
    exception propagates. *)
Lemma fetch_loop_final (attempt : nat) (rest : list nat) (w : world) :
  ~ transient_failure (net (length (requested w)) url) ->
  fetch_loop net retries url (attempt :: rest) w
  = (net (length (requested w)) url,
     mkWorld (requested w ++ [url]) (slept w) (logged w)).
Proof.
  intros Hn. simpl. unfold urlopen.
  destruct (net (length (requested w)) url) as [body|e]; [reflexivity|].
  destruct e as [| | |status| | |msg]; try reflexivity.
  - destruct (retryable status) eqn:Hre; [|reflexivity].
    exfalso. apply Hn. apply retryable_spec in Hre as [-> | Hre];
      constructor; exact Hre.
  - exfalso. apply Hn. constructor.
Qed.

Lemma fetch_loop_exhausted (n : nat) :
  forall (first : nat) (w : world),
    (forall i, (i < n)%nat ->
               transient_failure (net (length (requested w) + i)%nat url)) ->
    let run := fetch_loop net retries url (seq first n) w in
    fst run = Raise (Exception ("Failed to fetch " ++ url ++ " after "
                                  ++ show_nat retries ++ " attempts."))
    /\ requested (snd run) = (requested w ++ repeat url n)%list
    /\ slept (snd run) = (slept w ++ backoff first n)%list.
Proof.
  induction n as [|n IH]; intros first w Hall.
  - simpl. rewrite !app_nil_r. auto.
  - cbn [seq].
    destruct (fetch_loop_transient first (seq (S first) n) w) as [ev ->].
    { specialize (Hall 0%nat). rewrite Nat.add_0_r in Hall. apply Hall. lia. }
    edestruct (IH (S first)
                  (mkWorld (requested w ++ [url])
                           (slept w ++ [2 ^ Z.of_nat first])
                           (logged w ++ [ev])))
      as (Hres & Hreq & Hslept); [|split; [|split]].
    + intros i Hi. simpl. rewrite length_app. simpl.
      replace (length (requested w) + 1 + i)%nat
        with (length (requested w) + S i)%nat by lia.
      apply Hall. lia.
    + exact Hres.
    + rewrite Hreq. simpl. rewrite <- app_assoc. reflexivity.
    + rewrite Hslept. simpl. unfold backoff. simpl.
      rewrite <- app_assoc. reflexivity.
Qed.

Lemma fetch_loop_settles (k : nat) :
  forall (n first : nat) (w : world),
    (k < n)%nat ->
    (forall i, (i < k)%nat ->
               transient_failure (net (length (requested w) + i)%nat url)) ->
    ~ transient_failure (net (length (requested w) + k)%nat url) ->
    let run := fetch_loop net retries url (seq first n) w in
    fst run = net (length (requested w) + k)%nat url
    /\ requested (snd run) = (requested w ++ repeat url (S k))%list
    /\ slept (snd run) = (slept w ++ backoff first k)%list.
Proof.
  induction k as [|k IH]; intros n first w Hk Hall Hlast;
    (destruct n as [|n]; [lia|]); cbn [seq].
  - rewrite Nat.add_0_r in Hlast. rewrite fetch_loop_final by exact Hlast.
    simpl. rewrite Nat.add_0_r, app_nil_r. auto.
  - destruct (fetch_loop_transient first (seq (S first) n) w) as [ev ->].
    { specialize (Hall 0%nat). rewrite Nat.add_0_r in Hall. apply Hall. lia. }
    edestruct (IH n (S first)
                  (mkWorld (requested w ++ [url])
                           (slept w ++ [2 ^ Z.of_nat first])
                           (logged w ++ [ev])))
      as (Hres & Hreq & Hslept); [| | |split; [|split]].
    + lia.
    + intros i Hi. simpl. rewrite length_app. simpl.
      replace (length (requested w) + 1 + i)%nat
        with (length (requested w) + S i)%nat by lia.
      apply Hall. lia.
    + simpl. rewrite length_app. simpl.
      replace (length (requested w) + 1 + k)%nat
        with (length (requested w) + S k)%nat by lia.
      exact Hlast.
    + rewrite Hres. simpl. rewrite length_app. simpl.
      f_equal. lia.
    + rewrite Hreq. simpl. rewrite <- app_assoc. reflexivity.
    + rewrite Hslept. simpl. unfold backoff. simpl.
      rewrite <- app_assoc. reflexivity.
Qed.
End ClientFacts.

(** C4. [_fetch_with_retry] goes on to the next attempt exactly after a
    transient failure (HTTP 429, HTTP 5xx, connection error), sleeping
    [2 ^ i] seconds after attempt [i]; the first outcome that is not a
    transient failure ends the call at once, a body being returned and any
    other exception (another HTTP status among them) being raised as it
    is; when all [retries] attempts fail transiently the call has made
    exactly [retries] requests, has slept 1, 2, 4, ... seconds, and raises
    an exception whose message names the URL and the attempt count. *)
Theorem fetch_with_retry_policy
  (net : nat -> string -> result string) (retries : nat) (url : string)
  (w : world) :
  let run := _fetch_with_retry net retries url w in
  let outcome (i : nat) := net (length (requested w) + i)%nat url in
  ((forall i, (i < retries)%nat -> transient_failure (outcome i)) ->
   fst run = Raise (Exception ("Failed to fetch " ++ url ++ " after "
                                 ++ show_nat retries ++ " attempts."))
   /\ requested (snd run) = (requested w ++ repeat url retries)%list
   /\ slept (snd run) = (slept w ++ backoff 0 retries)%list)
  /\ (forall k,
         (k < retries)%nat ->
         (forall i, (i < k)%nat -> transient_failure (outcome i)) ->
         ~ transient_failure (outcome k) ->
         fst run = outcome k
         /\ requested (snd run) = (requested w ++ repeat url (S k))%list
         /\ slept (snd run) = (slept w ++ backoff 0 k)%list)
  /\ (retries = 3%nat ->
      (forall n, net n url = Raise (HTTPError 503)) ->
      fst run = Raise (Exception ("Failed to fetch " ++ url
                                    ++ " after 3 attempts."))
      /\ requested (snd run) = (requested w ++ [url; url; url])%list
      /\ slept (snd run) = (slept w ++ [1; 2; 4])%list).
Proof.
  intros run outcome. split; [|split].
  - intros Hall. apply fetch_loop_exhausted. exact Hall.
  - intros k Hk Hall Hlast. apply fetch_loop_settles; assumption.
  - intros -> H503.
    apply (fetch_loop_exhausted net 3 url 3 0 w).
    intros i _. rewrite H503. apply Transient5xx. lia.
Qed.

Lemma fetch_with_retry_policy_witness :
  let run := _fetch_with_retry always_503 3 "https://example.test/a" world0 in
  fst run = Raise (Exception
                     "Failed to fetch https://example.test/a after 3 attempts.")
  /\ requested (snd run)
     = ["https://example.test/a"; "https://example.test/a";
        "https://example.test/a"]
  /\ slept (snd run) = [1; 2; 4].
Proof.
  destruct (fetch_with_retry_policy always_503 3 "https://example.test/a" world0)
    as (Hexhausted & _ & _).
  apply Hexhausted. intros i _. apply Transient5xx. lia.
Defined.

(* ===================================================================== *)
(** * Properties of the archive crawler *)
(* ===================================================================== *)

(** ** The order on month keys *)

Lemma ascii_compare_refl (a : ascii) : Ascii.compare a a = Eq.
Proof. unfold Ascii.compare. apply N.compare_refl. Qed.

Lemma ascii_compare_trans (a b c : ascii) :
  Ascii.compare a b = Lt -> Ascii.compare b c = Lt -> Ascii.compare a c = Lt.
Proof. unfold Ascii.compare. rewrite !N.compare_lt_iff. lia. Qed.

Lemma string_compare_trans (a : string) :
  forall b c,
    String.compare a b = Lt -> String.compare b c = Lt -> String.compare a c = Lt.
Proof.
  induction a as [|x a IH]; intros [|y b] [|z c]; simpl; try discriminate; auto.
  destruct (Ascii.compare x y) eqn:Exy; try discriminate;
    destruct (Ascii.compare y z) eqn:Eyz; try discriminate.
  - apply Ascii.compare_eq_iff in Exy, Eyz. subst.
    rewrite ascii_compare_refl. apply IH.
  - apply Ascii.compare_eq_iff in Exy. subst. rewrite Eyz. auto.
  - apply Ascii.compare_eq_iff in Eyz. subst. rewrite Exy. auto.
  - rewrite (ascii_compare_trans x y z Exy Eyz). auto.
Qed.

(** Within bounds [start_month <= end_month], a month before the start
    is not after the end. *)
Lemma below_not_above (start_month end_month m : string) :
  (start_month <=? end_month)%string = true ->
  (m <? start_month)%string = true ->
  (end_month <? m)%string = false.
Proof.
  unfold String.leb, String.ltb. intros Hle Hlt.
  destruct (String.compare m start_month) eqn:E1; try discriminate.
  destruct (String.compare end_month m) eqn:E2; try reflexivity.
  pose proof (string_compare_trans _ _ _ E2 E1) as E3.
  rewrite String.compare_antisym, E3 in Hle. discriminate.
Qed.

(** ** Cutting the discovery order *)

Lemma before_halt_app (start_month : string) (l1 l2 : list found) :
  before_halt start_month (l1 ++ l2)
  = match find (below start_month) l1 with
    | Some _ => before_halt start_month l1
    | None => (l1 ++ before_halt start_month l2)%list
    end.
Proof.
  induction l1 as [|f l1 IH]; simpl; [reflexivity|].
  destruct (below start_month f); [reflexivity|]. rewrite IH.
  destruct (find (below start_month) l1); reflexivity.
Qed.

Lemma before_halt_no_halt (start_month : string) (l : list found) :
  find (below start_month) l = None -> before_halt start_month l = l.
Proof.
  induction l as [|f l IH]; simpl; [reflexivity|].
  destruct (below start_month f); [discriminate|]. intros H. rewrite IH; auto.
Qed.

Lemma in_range_items_app (start_month end_month : string) (l1 l2 : list found) :
  in_range_items start_month end_month (l1 ++ l2)
  = match find (below start_month) l1 with
    | Some _ => in_range_items start_month end_month l1
    | None => (in_range_items start_month end_month l1
               ++ in_range_items start_month end_month l2)%list
    end.
Proof.
  unfold in_range_items. rewrite before_halt_app.
  destruct (find (below start_month) l1) eqn:E; [reflexivity|].
  rewrite (before_halt_no_halt _ _ E), List.filter_app, map_app. reflexivity.
Qed.

Lemma find_app_found {A} (p : A -> bool) (l1 l2 : list A) :
  find p (l1 ++ l2)
  = match find p l1 with
    | Some x => Some x
    | None => find p l2
    end.
Proof.
  induction l1 as [|x l1 IH]; simpl; [reflexivity|].
  destruct (p x); [reflexivity | exact IH].
Qed.

(** ** The bounded crawl against the discovery order *)

Section CrawlFacts.
Variable net : nat -> string -> result string.
Variable retries : nat.
Variables start_month end_month : string.

Lemma node_step_settle (link : list string) (c : crawl) (w : world) :
  node_step net retries start_month end_month link c w
  = (let '(r, w') := discover_node net retries link (seen_of c) w in
     settle start_month end_month c r w').
Proof.
  destruct c as [its sp sn stop].
  unfold node_step, discover_node, seen_of. cbv zeta.
  cbn [seen_pdf_urls seen_node_urls items_in_range stop_crawling fst snd].
  generalize (site ++ group1 link). intros node_url.
  destruct (bool_decide (node_url ∈ sn)); [reflexivity|].
  unfold bindS, sleep, catch, bind, retS.
  destruct (resolve_node net retries node_url sp _)
    as [[[[[pdf m] html]|]|e] w2]; try reflexivity.
  unfold lift, range_step, settle, retS, bindS, log.
  cbn [seen_pdf_urls seen_node_urls items_in_range stop_crawling fst snd
       found_month found_item].
  destruct (end_month <? m)%string; [reflexivity|].
  destruct (m <? start_month)%string; reflexivity.
Qed.

Lemma discover_node_requests (link : list string) (seen : seen_sets)
      (w : world) (f : found) :
  (discover_node net retries link seen w).1.1 = Some f ->
  found_requests f = requested (discover_node net retries link seen w).2.
Proof.
  unfold discover_node. cbv zeta.
  generalize (site ++ group1 link). intros node_url.
  destruct (bool_decide (node_url ∈ seen.2)); [discriminate|].
  unfold bindS, sleep, catch, retS.
  destruct (resolve_node net retries node_url seen.1 _)
    as [[[[[pdf m] html]|]|e] w2]; cbn [fst snd]; try discriminate.
  intros H. injection H as <-. reflexivity.
Qed.

Lemma discover_node_month (link : list string) (seen : seen_sets)
      (w : world) (f : found) :
  (discover_node net retries link seen w).1.1 = Some f ->
  month_key_str (found_item f) = Some (found_month f)
  /\ exists node_html target w1 w2,
      _fetch_with_retry net retries (rss_item_url (found_item f)) w1
      = (Ok node_html, w2)
      /\ select_pdf (find_pdf_urls node_html) = Some target
      /\ pdf_url (found_item f) = absolute target
      /\ archive_month_key (pdf_url (found_item f)) node_html
         = Ok (Some (found_month f))
      /\ title (found_item f) = item_title node_html.
Proof.
  unfold discover_node. cbv zeta.
  generalize (site ++ group1 link). intros node_url.
  destruct (bool_decide (node_url ∈ seen.2)); [discriminate|].
  unfold bindS, sleep, catch, retS.
  destruct (resolve_node net retries node_url seen.1 _)
    as [[[[[pdf m] html]|]|e] w2] eqn:Hres; cbn [fst snd]; try discriminate.
  intros H. injection H as <-.
  cbn [found_item found_month month_key_str pdf_url rss_item_url title].
  split; [reflexivity|].
  revert Hres. unfold resolve_node, bind.
  destruct (_fetch_with_retry net retries _ _) as [[body|e] w3] eqn:Hfetch;
    [|discriminate].
  destruct (select_pdf (find_pdf_urls body)) as [target|] eqn:Hsel;
    [|discriminate].
  destruct (bool_decide _); [discriminate|].
  destruct (archive_month_key (absolute target) body) as [[k|]|e] eqn:Hk;
    try discriminate.
  unfold ret. intros H. injection H as <- <- <- _.
  exists body, target. eauto 10.
Qed.
End CrawlFacts.

Lemma in_range_items_skip (start_month end_month : string) (f : found)
      (l : list found) :
  below start_month f = false ->
  (end_month <? found_month f)%string = true ->
  in_range_items start_month end_month (f :: l)
  = in_range_items start_month end_month l.
Proof.
  intros Hb Ha. unfold in_range_items. cbn [before_halt]. rewrite Hb.
  cbn [List.filter]. rewrite Ha. reflexivity.
Qed.

Lemma in_range_items_keep (start_month end_month : string) (f : found)
      (l : list found) :
  below start_month f = false ->
  (end_month <? found_month f)%string = false ->
  in_range_items start_month end_month (f :: l)
  = found_item f :: in_range_items start_month end_month l.
Proof.
  intros Hb Ha. unfold in_range_items. cbn [before_halt]. rewrite Hb.
  cbn [List.filter]. rewrite Ha. reflexivity.
Qed.

Lemma in_range_items_halt (start_month end_month : string) (f : found)
      (l : list found) :
  below start_month f = true ->
  in_range_items start_month end_month (f :: l) = [].
Proof.
  intros Hb. unfold in_range_items. cbn [before_halt]. rewrite Hb. reflexivity.
Qed.

Section CrawlSimulation.
Variable net : nat -> string -> result string.
Variable retries : nat.
Variables start_month end_month : string.
Hypothesis bounds : (start_month <=? end_month)%string = true.

Abbreviation discovered := (discover_nodes net retries).
Abbreviation crawled := (node_loop net retries start_month end_month).

Lemma node_loop_cons (link : list string) (rest : list (list string))
      (c : crawl) (w : world) :
  crawled (link :: rest) c w
  = (let '(r, wd) := discover_node net retries link (seen_of c) w in
     let '((c', fl), w') := settle start_month end_month c r wd in
     match fl with
     | Break => (c', w')
     | Continue => crawled rest c' w'
     end).
Proof.
  cbn [node_loop]. unfold bindS at 1. rewrite node_step_settle.
  destruct (discover_node net retries link (seen_of c) w) as [r wd].
  destruct (settle start_month end_month c r wd) as [[c' []] w']; reflexivity.
Qed.

Lemma discover_nodes_cons (link : list string) (rest : list (list string))
      (seen : seen_sets) (w : world) :
  discovered (link :: rest) seen w
  = (let '((o, seen'), wd) := discover_node net retries link seen w in
     let '((fs, seen''), wd') := discovered rest seen' wd in
     ((match o with Some f => f :: fs | None => fs end, seen''), wd')).
Proof.
  cbn [discover_nodes]. unfold bindS, retS.
  destruct (discover_node net retries link seen w) as [[o seen'] wd].
  cbn [fst snd]. destruct (discovered rest seen' wd) as [[fs seen''] wd'].
  destruct o; reflexivity.
Qed.

(** The node loop against the discovery order of its links: the items
    grow by the in-range entries met before the first entry older than
    the start; at such an entry the loop stops for good, with no request
    made after the one for that entry; otherwise the loop ends in the
    state and the world of the discovery. *)
Lemma node_loop_sim (node_links : list (list string)) :
  forall (c c' : crawl) (w wc wd : world) (fs : list found) (seen' : seen_sets),
    discovered node_links (seen_of c) w = ((fs, seen'), wd) ->
    crawled node_links c w = (c', wc) ->
    items_in_range c'
    = (items_in_range c ++ in_range_items start_month end_month fs)%list
    /\ match find (below start_month) fs with
       | Some f => stop_crawling c' = true /\ requested wc = found_requests f
       | None =>
           seen_of c' = seen' /\ stop_crawling c' = stop_crawling c /\ wc = wd
       end.
Proof.
  induction node_links as [|link rest IH]; intros c c' w wc wd fs seen'.
  - cbn [discover_nodes node_loop]. unfold retS.
    intros Hd Hc. injection Hd as <- <- <-. injection Hc as <- <-.
    cbn [find]. unfold in_range_items. cbn. rewrite app_nil_r. auto.
  - rewrite node_loop_cons, discover_nodes_cons.
    pose proof (discover_node_requests net retries link (seen_of c) w) as Hreq.
    destruct (discover_node net retries link (seen_of c) w) as [[o s1] w1].
    cbn [fst snd] in Hreq.
    destruct (discovered rest s1 w1) as [[fs1 s2] w2] eqn:Hrest.
    intros Hd. injection Hd as <- <- <-.
    unfold settle. cbn [fst snd].
    destruct o as [f|].
    + specialize (Hreq f eq_refl).
      destruct (end_month <? found_month f)%string eqn:Habove.
      * (* after the end of the range: recorded and skipped *)
        assert (Hb : below start_month f = false).
        { unfold below. destruct (found_month f <? start_month)%string eqn:E;
            [|reflexivity].
          rewrite (below_not_above _ _ _ bounds E) in Habove. discriminate. }
        unfold retS. intros Hc.
        eapply IH in Hc; [|destruct s1; exact Hrest].
        cbn [find]. rewrite Hb, in_range_items_skip by assumption. exact Hc.
      * destruct (found_month f <? start_month)%string eqn:Hbelow.
        -- (* before the start of the range: the crawl halts *)
           unfold bindS, log, retS. intros Hc. injection Hc as <- <-.
           cbn [find]. unfold below at 1. rewrite Hbelow.
           rewrite in_range_items_halt by exact Hbelow.
           cbn [items_in_range stop_crawling requested]. rewrite app_nil_r. auto.
        -- (* in range: appended *)
           unfold retS. intros Hc.
           eapply IH in Hc; [|destruct s1; exact Hrest].
           cbn [find]. unfold below at 1. rewrite Hbelow.
           rewrite in_range_items_keep by assumption.
           cbn [items_in_range stop_crawling] in Hc.
           rewrite <- app_assoc in Hc. exact Hc.
    + unfold retS. intros Hc.
      eapply IH in Hc; [|destruct s1; exact Hrest]. exact Hc.
Qed.
End CrawlSimulation.

Section PageSimulation.
Variable net : nat -> string -> result string.
Variable retries : nat.
Variables start_month end_month : string.
Hypothesis bounds : (start_month <=? end_month)%string = true.

Abbreviation discovered_pages := (discover_pages net retries).
Abbreviation crawled_pages := (page_loop net retries start_month end_month).

Lemma page_loop_stopped (fuel page_num pages_crawled : nat) (c : crawl)
      (w : world) :
  stop_crawling c = true ->
  crawled_pages fuel page_num pages_crawled c w = ((c, pages_crawled, true), w).
Proof. intros H. destruct fuel; cbn [page_loop]; rewrite H; reflexivity. Qed.

(** The page loop against the discovery order of the same pages. *)
Lemma page_loop_sim (fuel : nat) :
  forall (page_num pages_crawled pages' : nat) (c c' : crawl)
         (w wc wd : world) (fs : list found) (ended fin : bool),
    stop_crawling c = false ->
    discovered_pages fuel page_num (seen_of c) w = ((fs, ended), wd) ->
    crawled_pages fuel page_num pages_crawled c w = ((c', pages', fin), wc) ->
    items_in_range c'
    = (items_in_range c ++ in_range_items start_month end_month fs)%list
    /\ match find (below start_month) fs with
       | Some f => fin = true /\ requested wc = found_requests f
       | None => fin = ended /\ wc = wd
       end.
Proof.
  induction fuel as [|fuel IH];
    intros page_num pages_crawled pages' c c' w wc wd fs ended fin Hstop;
    cbn [page_loop discover_pages]; rewrite Hstop.
  - unfold retS. intros Hd Hc. injection Hd as <- <- <-.
    injection Hc as <- _ <- <-. cbn [find]. unfold in_range_items. cbn.
    rewrite app_nil_r. auto.
  - unfold bindS, log, sleep, retS.
    destruct (catch _ _ _) as [[html_data|] w1].
    + destruct (findall P_node_link html_data) as [|link rest] eqn:Hlinks.
      * intros Hd Hc. injection Hd as <- <- <-.
        injection Hc as <- _ <- <-. cbn [find]. unfold in_range_items. cbn.
        rewrite app_nil_r. auto.
      * destruct (discover_nodes net retries (link :: rest) (seen_of c) w1)
          as [[fs1 seen1] wd1] eqn:Hd1.
        destruct (node_loop net retries start_month end_month (link :: rest) c w1)
          as [c1 wc1] eqn:Hc1.
        destruct (node_loop_sim net retries start_month end_month bounds
                    _ _ _ _ _ _ _ _ Hd1 Hc1) as [Hitems Hcase].
        cbn [fst snd].
        destruct (discovered_pages fuel (page_num + 1) seen1 _)
          as [[fs2 ended2] wd3] eqn:Hd2.
        cbn [fst snd]. intros Hd. injection Hd as <- <- <-.
        rewrite in_range_items_app, find_app_found.
        destruct (find (below start_month) fs1) as [f|] eqn:Hfind.
        -- destruct Hcase as [Hstop1 Hreq1].
           rewrite page_loop_stopped by exact Hstop1.
           intros Hc. injection Hc as <- _ <- <-.
           cbn [requested]. auto.
        -- destruct Hcase as (Hseen1 & Hstop1 & ->).
           rewrite Hstop in Hstop1. rewrite <- Hseen1 in Hd2. intros Hc.
           destruct (IH _ _ _ _ _ _ _ _ _ _ _ Hstop1 Hd2 Hc) as [Hitems2 Hcase2].
           rewrite Hitems2, Hitems, <- app_assoc. auto.
    + intros Hd Hc. injection Hd as <- <- <-.
      injection Hc as <- _ <- <-. cbn [find]. unfold in_range_items. cbn.
      rewrite app_nil_r. auto.
Qed.
End PageSimulation.

(** C3. With bounds [start_month <= end_month], the crawl returns, in
    discovery order, the items of exactly those entries whose month lies
    within the bounds and that are met before the first entry older than
    [start_month]: an entry after [end_month] is recorded as seen and
    skipped, and the first entry before [start_month] ends the crawl with
    no request made after the one for its detail page.  The crawl returns
    as soon as such an entry exists among the pages the fuel covers, or
    the archive ends within them.  In particular entries of months
    2024-03, 2024-02, 2024-01 with [start_month] 2024-02 and [end_month]
    at least 2024-03 give the items of the first two. *)
Theorem crawl_returns_range_before_halt
  (net : nat -> string -> result string) (retries : nat)
  (start_month end_month : string) (fuel : nat) (w : world) :
  (start_month <=? end_month)%string = true ->
  let disc := discover_pages net retries fuel 0 (∅, ∅) w in
  let run :=
    fetch_historical_archive_items net retries start_month end_month fuel w in
  ((disc.1.2 = true \/ exists f, find (below start_month) disc.1.1 = Some f) ->
   run.1 = Some (in_range_items start_month end_month disc.1.1))
  /\ (forall f,
         find (below start_month) disc.1.1 = Some f ->
         requested run.2 = found_requests f)
  /\ (forall node_url c pdf m node_html w1,
         (end_month <? m)%string = true ->
         range_step start_month end_month node_url c (pdf, m, node_html) w1
         = ((mkCrawl (items_in_range c) ({[pdf]} ∪ seen_pdf_urls c)
                     (seen_node_urls c) (stop_crawling c), Continue), w1))
  /\ (forall f1 f2 f3,
         disc.1.1 = [f1; f2; f3] ->
         found_month f1 = "2024-03" -> found_month f2 = "2024-02" ->
         found_month f3 = "2024-01" ->
         start_month = "2024-02" -> ("2024-03" <=? end_month)%string = true ->
         run.1 = Some [found_item f1; found_item f2]).
Proof.
  intros bounds disc run.
  destruct disc as [[fs ended] wd] eqn:Hd. subst run.
  unfold fetch_historical_archive_items, bindS.
  destruct (page_loop net retries start_month end_month fuel 0 0 crawl0 w)
    as [[[c' pages'] fin] wc] eqn:Hc.
  destruct (page_loop_sim net retries start_month end_month bounds fuel
              0%nat 0%nat pages' crawl0 c' w wc wd fs ended fin eq_refl Hd Hc)
    as [Hitems Hcase].
  cbn [fst snd items_in_range crawl0 app] in *.
  assert (Hret : (ended = true \/ exists f, find (below start_month) fs = Some f) ->
                 fin = true).
  { intros [-> | [f Hf]].
    - destruct (find (below start_month) fs); tauto.
    - rewrite Hf in Hcase. tauto. }
  split; [|split; [|split]].
  - intros H. rewrite (Hret H), Hitems. reflexivity.
  - intros f Hf. rewrite (Hret (or_intror (ex_intro _ f Hf))).
    rewrite Hf in Hcase. destruct Hcase as [_ Hreq]. exact Hreq.
  - intros node_url c pdf m node_html w1 Habove.
    unfold range_step. rewrite Habove. reflexivity.
  - intros f1 f2 f3 -> H1 H2 H3 -> Hend.
    assert (Hb1 : below "2024-02" f1 = false) by (unfold below; rewrite H1; reflexivity).
    assert (Hb2 : below "2024-02" f2 = false) by (unfold below; rewrite H2; reflexivity).
    assert (Hb3 : below "2024-02" f3 = true) by (unfold below; rewrite H3; reflexivity).
    assert (Ha1 : (end_month <? found_month f1)%string = false).
    { rewrite H1. unfold String.leb in Hend. unfold String.ltb.
      rewrite String.compare_antisym.
      destruct (String.compare "2024-03" end_month); try reflexivity.
      discriminate. }
    assert (Ha2 : (end_month <? found_month f2)%string = false).
    { rewrite H2. apply (below_not_above "2024-03"); [exact Hend | reflexivity]. }
    rewrite Hret, Hitems.
    + rewrite in_range_items_keep, in_range_items_keep, in_range_items_halt
        by assumption. reflexivity.
    + right. exists f3. cbn [find]. rewrite Hb1, Hb2, Hb3. reflexivity.
Qed.

Lemma crawl_returns_range_before_halt_witness :
  let run :=
    fetch_historical_archive_items archive_net 3 "2024-02" "2024-12" 5 world0 in
  option_map (map month_key_str) run.1 = Some [Some "2024-03"; Some "2024-02"]
  /\ requested run.2
     = [archive_page 0; site ++ "/node/101"; site ++ "/node/102";
        site ++ "/node/103"].
Proof.
  destruct (crawl_returns_range_before_halt
              archive_net 3 "2024-02" "2024-12" 5 world0 eq_refl)
    as (Hitems & Hhalt & _ & _).
  split.
  - rewrite Hitems; [vm_compute; reflexivity|].
    right. eexists. vm_compute. reflexivity.
  - erewrite Hhalt; [|vm_compute; reflexivity]. vm_compute. reflexivity.
Defined.

(* ===================================================================== *)
(** * Month keys of the returned discovery items *)
(* ===================================================================== *)

Section MonthKeyFacts.
Variable net : nat -> string -> result string.
Variable retries : nat.
Variables start_month end_month : string.

Lemma node_loop_resolved (node_links : list (list string)) :
  forall (c : crawl) (w : world),
    Forall (resolved_item net retries) (items_in_range c) ->
    Forall (resolved_item net retries)
           (items_in_range
              (node_loop net retries start_month end_month node_links c w).1).
Proof.
  induction node_links as [|link rest IH]; intros c w Hc; [exact Hc|].
  rewrite node_loop_cons.
  pose proof (discover_node_month net retries link (seen_of c) w) as Hm.
  destruct (discover_node net retries link (seen_of c) w) as [[o s1] w1].
  cbn [fst snd] in Hm. unfold settle. cbn [fst snd].
  destruct o as [f|]; [|apply IH; exact Hc].
  destruct (end_month <? found_month f)%string; [apply IH; exact Hc|].
  destruct (found_month f <? start_month)%string; [exact Hc|].
  apply IH. cbn [items_in_range]. apply Forall_app. split; [exact Hc|].
  constructor; [|constructor].
  destruct (Hm f eq_refl)
    as (Hkey & html & target & wa & wb & Hfetch & Hsel & Hpdf & Hres & Ht).
  exists (found_month f), html, target, wa, wb. auto 10.
Qed.

Lemma page_loop_resolved (fuel : nat) :
  forall (page_num pages_crawled : nat) (c : crawl) (w : world),
    Forall (resolved_item net retries) (items_in_range c) ->
    Forall (resolved_item net retries)
           (items_in_range
              (page_loop net retries start_month end_month fuel page_num
                         pages_crawled c w).1.1.1).
Proof.
  induction fuel as [|fuel IH]; intros page_num pages_crawled c w Hc;
    cbn [page_loop]; (destruct (stop_crawling c); [exact Hc|]); [exact Hc|].
  unfold bindS, log, sleep, retS.
  destruct (catch _ _ _) as [[html_data|] w1]; [|exact Hc].
  destruct (findall P_node_link html_data) as [|link rest]; [exact Hc|].
  pose proof (node_loop_resolved (link :: rest) c w1 Hc) as Hn.
  destruct (node_loop net retries start_month end_month (link :: rest) c w1)
    as [c1 w2].
  apply IH. exact Hn.
Qed.

(** ** The Feed Locator *)

(** [strftime] never gives the empty text, so a month read from the
    publication date is kept and the title is not looked at; with no
    month from the publication date, the title decides. *)
Lemma feed_month_key_precedence (pubDate title : string) :
  feed_month_key pubDate title
  = match month_of_pubDate pubDate with
    | Some k => Ok (Some k)
    | None => month_of_title title
    end.
Proof.
  unfold feed_month_key.
  destruct (month_of_pubDate pubDate) as [k|] eqn:Hp.
  - assert (Hk : truthy k = true).
    { unfold month_of_pubDate in Hp.
      destruct (truthy pubDate); [|discriminate].
      destruct (search P_month_abbr pubDate) as [caps|]; [|discriminate].
      destruct (strptime true _ _) as [dt|e]; [|discriminate].
      injection Hp as <-. unfold strftime.
      apply truthy_app_r, truthy_app_l. reflexivity. }
    rewrite Hk. reflexivity.
  - destruct (month_of_title title) as [[k|]|e]; reflexivity.
Qed.

(** Entries that are passed over leave nothing but their requests and
    their warnings. *)
Lemma item_loop_passed_over (before : list rss_entry) :
  forall (rest : list rss_entry) (w w1 : world),
    passed_over net retries before w = Some w1 ->
    item_loop net retries (before ++ rest) w = item_loop net retries rest w1.
Proof.
  induction before as [|entry before IH]; intros rest w w1;
    cbn [passed_over item_loop app].
  - intros H. injection H as <-. reflexivity.
  - destruct (is_summary_title (text_or_empty (entry_title entry)));
      [|apply IH].
    unfold bind, lift.
    destruct (entry_pdf net retries _ w) as [[pdf|] w']; [discriminate|].
    apply IH.
Qed.

(** The first entry with a qualifying title and a PDF is returned,
    whatever its month key. *)
Lemma item_loop_first (entry : rss_entry) (rest : list rss_entry)
      (w w2 : world) (pdf : string) :
  is_summary_title (text_or_empty (entry_title entry)) = true ->
  entry_pdf net retries (text_or_empty (entry_link entry)) w = (Some pdf, w2) ->
  item_loop net retries (entry :: rest) w
  = (match feed_month_key (text_or_empty (entry_pubDate entry))
                          (text_or_empty (entry_title entry)) with
     | Ok k => Ok (Some (mkItem pdf (text_or_empty (entry_link entry)) k
                                (text_or_empty (entry_title entry))))
     | Raise e => Raise e
     end, w2).
Proof.
  intros Ht Hp. cbn [item_loop]. rewrite Ht. unfold bind, lift. rewrite Hp.
  destruct (feed_month_key _ _); reflexivity.
Qed.

(** What is returned comes from such an entry. *)
Lemma item_loop_returned (items : list rss_entry) :
  forall (w w2 : world) (it : discovery_item),
    item_loop net retries items w = (Ok (Some it), w2) ->
    exists before entry after w1,
      items = (before ++ entry :: after)%list
      /\ passed_over net retries before w = Some w1
      /\ is_summary_title (text_or_empty (entry_title entry)) = true
      /\ entry_pdf net retries (text_or_empty (entry_link entry)) w1
         = (Some (pdf_url it), w2)
      /\ rss_item_url it = text_or_empty (entry_link entry)
      /\ title it = text_or_empty (entry_title entry)
      /\ feed_month_key (text_or_empty (entry_pubDate entry))
                        (text_or_empty (entry_title entry))
         = Ok (month_key_str it).
Proof.
  induction items as [|entry rest IH]; intros w w2 it; cbn [item_loop].
  - unfold ret. discriminate.
  - destruct (is_summary_title (text_or_empty (entry_title entry))) eqn:Ht.
    + unfold bind, lift.
      destruct (entry_pdf net retries _ w) as [[pdf|] w'] eqn:Hp.
      * destruct (feed_month_key _ _) as [k|e] eqn:Hk.
        -- unfold ret. intros H. injection H as <- <-.
           exists [], entry, rest, w. cbn. auto 10.
        -- unfold raise. discriminate.
      * intros H.
        destruct (IH _ _ _ H) as (before & e & after & w1 & -> & Hb & He).
        exists (entry :: before), e, after, w1. cbn [passed_over app].
        rewrite Ht, Hp. auto.
    + intros H.
      destruct (IH _ _ _ H) as (before & e & after & w1 & -> & Hb & He).
      exists (entry :: before), e, after, w1. cbn [passed_over app].
      rewrite Ht. auto.
Qed.
End MonthKeyFacts.

(** C2, as stated, fails: the Feed Locator returns an item whose month
    key is [None]. *)
Lemma feed_returns_unresolved_month :
  (fetch_latest_rss_item undated_net 3 undated_feed_url undated_items world0).1
  = Ok (Some (mkItem
                "https://company.meralco.com.ph/sites/default/files/rates_summary.pdf"
                "https://company.meralco.com.ph/node/200"
                None
                "Summary Schedule of Rates")).
Proof. vm_compute. reflexivity. Qed.

(** C2, amended.  The Archive Crawler: every item it accumulates, hence
    every item it returns, carries a month key read by one of its three
    strategies.  A detail page with a new PDF whose month key none of
    them resolves adds no item and does not end the crawl, which goes on
    with the next link; it is passed without a log record when none of
    the three patterns matches, and with the warning of line 277 when
    the month and the year of the title make [strptime] raise.  The Feed
    Locator skips no entry for its month key: once the feed is fetched
    and parsed, the first entry, in document order, whose title names
    the summary and whose page yields a PDF link decides the outcome
    alone, whatever follows it; the item returned carries the month key
    read from the publication date, else the one read from the title,
    else [None]; only when the publication date yields no month key and
    [strptime] raises on the title is no item returned, and the
    exception reaches the caller.  Every item the locator returns arises
    in this way. *)
Theorem month_keys_of_returned_items
  (net : nat -> string -> result string) (retries : nat)
  (start_month end_month : string) (fuel : nat) (w : world)
  (rss_url : string) (parse_items : string -> result (list rss_entry)) :
  Forall (resolved_item net retries)
         (items_in_range
            (page_loop net retries start_month end_month fuel 0 0 crawl0 w).1.1.1)
  /\ (forall items,
         (fetch_historical_archive_items net retries start_month end_month
                                         fuel w).1
         = Some items ->
         Forall (resolved_item net retries) items)
  /\ (forall link c node_html w1 target,
         bool_decide (site ++ group1 link ∈ seen_node_urls c) = false ->
         _fetch_with_retry net retries (site ++ group1 link) (sleep 1 w).2
         = (Ok node_html, w1) ->
         select_pdf (find_pdf_urls node_html) = Some target ->
         bool_decide (absolute target ∈ seen_pdf_urls c) = false ->
         let passed :=
           mkCrawl (items_in_range c) (seen_pdf_urls c)
                   ({[site ++ group1 link]} ∪ seen_node_urls c)
                   (stop_crawling c) in
         (archive_month_key (absolute target) node_html = Ok None ->
          node_step net retries start_month end_month link c w
          = ((passed, Continue), w1))
         /\ (forall e,
                archive_month_key (absolute target) node_html = Raise e ->
                node_step net retries start_month end_month link c w
                = ((passed, Continue),
                   mkWorld (requested w1) (slept w1)
                           (logged w1 ++ [WarnNode (site ++ group1 link) e]))))
  /\ (forall before entry after xml_data w0 w1 w2 pdf,
         urlopen net rss_url w = (Ok xml_data, w0) ->
         parse_items xml_data = Ok (before ++ entry :: after)%list ->
         passed_over net retries before w0 = Some w1 ->
         is_summary_title (text_or_empty (entry_title entry)) = true ->
         entry_pdf net retries (text_or_empty (entry_link entry)) w1
         = (Some pdf, w2) ->
         let item k :=
           mkItem pdf (text_or_empty (entry_link entry)) k
                  (text_or_empty (entry_title entry)) in
         fetch_latest_rss_item net retries rss_url parse_items w
         = (match month_of_pubDate (text_or_empty (entry_pubDate entry)) with
            | Some k => Ok (Some (item (Some k)))
            | None =>
                match month_of_title (text_or_empty (entry_title entry)) with
                | Ok k => Ok (Some (item k))
                | Raise e => Raise e
                end
            end, w2))
  /\ (forall it w2,
         fetch_latest_rss_item net retries rss_url parse_items w
         = (Ok (Some it), w2) ->
         exists xml_data w0 before entry after w1,
           urlopen net rss_url w = (Ok xml_data, w0)
           /\ parse_items xml_data = Ok (before ++ entry :: after)%list
           /\ passed_over net retries before w0 = Some w1
           /\ is_summary_title (text_or_empty (entry_title entry)) = true
           /\ entry_pdf net retries (text_or_empty (entry_link entry)) w1
              = (Some (pdf_url it), w2)
           /\ rss_item_url it = text_or_empty (entry_link entry)
           /\ title it = text_or_empty (entry_title entry)
           /\ match month_of_pubDate (text_or_empty (entry_pubDate entry)) with
              | Some k => month_key_str it = Some k
              | None =>
                  month_of_title (text_or_empty (entry_title entry))
                  = Ok (month_key_str it)
              end).
Proof.
  pose proof (page_loop_resolved net retries start_month end_month fuel
                0 0 crawl0 w (List.Forall_nil _)) as H.
  split; [exact H|]. split; [|clear H; split; [|split]].
  - intros items. unfold fetch_historical_archive_items, bindS.
    destruct (page_loop net retries start_month end_month fuel 0 0 crawl0 w)
      as [[[c' pages'] fin] wc].
    cbn [fst snd] in H. destruct fin; cbn; [|discriminate].
    intros E. injection E as <-. exact H.
  - intros link c node_html w1 target Hnode Hfetch Hsel Hpdf passed.
    subst passed. unfold node_step. cbv zeta. rewrite Hnode.
    unfold bindS, catch, bind, resolve_node.
    destruct (sleep 1 w) as [[] ws]. cbn [snd] in Hfetch.
    cbn [seen_pdf_urls]. unfold bind. rewrite Hfetch, Hsel, Hpdf.
    split; [intros Hkey | intros e Hkey]; rewrite Hkey; reflexivity.
  - intros before entry after xml_data w0 w1 w2 pdf Hopen Hparse Hpass Ht Hp item.
    subst item. unfold fetch_latest_rss_item. rewrite Hopen, Hparse.
    rewrite (item_loop_passed_over net retries before _ _ _ Hpass).
    rewrite (item_loop_first net retries entry after w1 w2 pdf Ht Hp).
    rewrite feed_month_key_precedence.
    destruct (month_of_pubDate _); reflexivity.
  - intros it w2. unfold fetch_latest_rss_item.
    destruct (urlopen net rss_url w) as [[xml_data|e] w0].
    + destruct (parse_items xml_data) as [items|e] eqn:Hparse; [|discriminate].
      intros H.
      apply item_loop_returned in H
        as (before & entry & after & w1 & -> & Hb & Ht & Hp & Hl & Hti & Hk).
      exists xml_data, w0, before, entry, after, w1.
      rewrite feed_month_key_precedence in Hk.
      repeat (split; [assumption || reflexivity|]).
      destruct (month_of_pubDate _) as [k|].
      * injection Hk as <-. reflexivity.
      * exact Hk.
    + destruct e; discriminate.
Qed.

Lemma month_keys_of_returned_items_witness :
  (fetch_historical_archive_items unresolved_net 3 "2024-01" "2024-12" 5
                                  world0).1
  = Some [unresolved_item]
  /\ Forall (resolved_item unresolved_net 3) [unresolved_item]
  /\ node_step unresolved_net 3 "2024-01" "2024-12" ["/node/301"; "Advisory"]
               crawl0 unresolved_world
     = ((unresolved_crawl, Continue), unresolved_world')
  /\ node_step unresolved_net 3 "2024-01" "2024-12" ["/node/302"; "March 0000"]
               unresolved_crawl unresolved_world'
     = ((mkCrawl [] ∅ ({[site ++ "/node/302"]} ∪ {[site ++ "/node/301"]}) false,
         Continue),
        mkWorld [archive_page 0; site ++ "/node/301"; site ++ "/node/302"]
                [1; 1]
                [InfoCrawlPage 0 (archive_page 0);
                 WarnNode (site ++ "/node/302") ValueError])
  /\ fetch_latest_rss_item mixed_net 3 mixed_feed_url mixed_items world0
     = (Ok (Some mixed_item), mixed_world)
  /\ month_key_str mixed_item = None
  /\ (exists before entry after,
         mixed_entries = (before ++ entry :: after)%list
         /\ entry_link entry = Some (rss_item_url mixed_item)
         /\ passed_over mixed_net 3 before (mkWorld [mixed_feed_url] [] [])
            = Some (mkWorld [mixed_feed_url;
                             "https://company.meralco.com.ph/node/402"]
                            [] [WarnNoPdf])).
Proof.
  split; [vm_compute; reflexivity|].
  split; [|split; [|split; [|split; [|split]]]].
  - destruct (month_keys_of_returned_items
                unresolved_net 3 "2024-01" "2024-12" 5 world0
                mixed_feed_url mixed_items) as (_ & Hitems & _).
    apply Hitems. vm_compute. reflexivity.
  - destruct (month_keys_of_returned_items
                unresolved_net 3 "2024-01" "2024-12" 5 unresolved_world
                mixed_feed_url mixed_items) as (_ & _ & Hskip & _).
    assert (Hnode : bool_decide (site ++ "/node/301" ∈ seen_node_urls crawl0)
                    = false) by (vm_compute; reflexivity).
    assert (Hfetch : _fetch_with_retry unresolved_net 3 (site ++ "/node/301")
                                       (sleep 1 unresolved_world).2
                     = (Ok unresolved_page, unresolved_world'))
      by (vm_compute; reflexivity).
    assert (Hsel : select_pdf (find_pdf_urls unresolved_page)
                   = Some "/sites/default/files/rates_summary.pdf")
      by (vm_compute; reflexivity).
    assert (Hpdf : bool_decide
                     (absolute "/sites/default/files/rates_summary.pdf"
                        ∈ seen_pdf_urls crawl0) = false)
      by (vm_compute; reflexivity).
    assert (Hkey : archive_month_key
                     (absolute "/sites/default/files/rates_summary.pdf")
                     unresolved_page = Ok None)
      by (vm_compute; reflexivity).
    exact (proj1 (Hskip ["/node/301"; "Advisory"] crawl0 unresolved_page
                        unresolved_world' _ Hnode Hfetch Hsel Hpdf) Hkey).
  - destruct (month_keys_of_returned_items
                unresolved_net 3 "2024-01" "2024-12" 5 unresolved_world'
                mixed_feed_url mixed_items) as (_ & _ & Hskip & _).
    assert (Hnode : bool_decide
                      (site ++ "/node/302" ∈ seen_node_urls unresolved_crawl)
                    = false) by (vm_compute; reflexivity).
    assert (Hfetch : _fetch_with_retry unresolved_net 3 (site ++ "/node/302")
                                       (sleep 1 unresolved_world').2
                     = (Ok year_zero_page,
                        mkWorld [archive_page 0; site ++ "/node/301";
                                 site ++ "/node/302"] [1; 1]
                                [InfoCrawlPage 0 (archive_page 0)]))
      by (vm_compute; reflexivity).
    assert (Hsel : select_pdf (find_pdf_urls year_zero_page)
                   = Some "/sites/default/files/summary_of_rates.pdf")
      by (vm_compute; reflexivity).
    assert (Hpdf : bool_decide
                     (absolute "/sites/default/files/summary_of_rates.pdf"
                        ∈ seen_pdf_urls unresolved_crawl) = false)
      by (vm_compute; reflexivity).
    assert (Hkey : archive_month_key
                     (absolute "/sites/default/files/summary_of_rates.pdf")
                     year_zero_page = Raise ValueError)
      by (vm_compute; reflexivity).
    exact (proj2 (Hskip ["/node/302"; "March 0000"] unresolved_crawl
                        year_zero_page _ _ Hnode Hfetch Hsel Hpdf)
                 ValueError Hkey).
  - destruct (month_keys_of_returned_items
                mixed_net 3 "2024-01" "2024-12" 5 world0
                mixed_feed_url mixed_items) as (_ & _ & _ & Hfeed & _).
    assert (Hopen : urlopen mixed_net mixed_feed_url world0
                    = (Ok mixed_xml, mkWorld [mixed_feed_url] [] []))
      by (vm_compute; reflexivity).
    assert (Hparse : mixed_items mixed_xml
                     = Ok (firstn 2 mixed_entries
                             ++ mkEntry (Some "Summary Schedule of Rates")
                                  (Some "https://company.meralco.com.ph/node/403")
                                  (Some "yesterday")
                             :: skipn 3 mixed_entries)%list)
      by (vm_compute; reflexivity).
    assert (Hpass : passed_over mixed_net 3 (firstn 2 mixed_entries)
                                (mkWorld [mixed_feed_url] [] [])
                    = Some (mkWorld [mixed_feed_url;
                                     "https://company.meralco.com.ph/node/402"]
                                    [] [WarnNoPdf]))
      by (vm_compute; reflexivity).
    assert (Hp : entry_pdf mixed_net 3 "https://company.meralco.com.ph/node/403"
                           (mkWorld [mixed_feed_url;
                                     "https://company.meralco.com.ph/node/402"]
                                    [] [WarnNoPdf])
                 = (Some (pdf_url mixed_item), mixed_world))
      by (vm_compute; reflexivity).
    exact (Hfeed _ _ _ _ _ _ _ _ Hopen Hparse Hpass eq_refl Hp).
  - reflexivity.
  - destruct (month_keys_of_returned_items
                mixed_net 3 "2024-01" "2024-12" 5 world0
                mixed_feed_url mixed_items) as (_ & _ & _ & _ & Hfrom).
    assert (Hrun : fetch_latest_rss_item mixed_net 3 mixed_feed_url mixed_items
                                         world0
                   = (Ok (Some mixed_item), mixed_world))
      by (vm_compute; reflexivity).
    destruct (Hfrom mixed_item mixed_world Hrun)
      as (xml_data & w0 & before & entry & after & w1
          & Hopen & Hparse & Hpass & _ & Hp & Hlink & _).
    exists before, entry, after.
    assert (Hw0 : w0 = mkWorld [mixed_feed_url] [] [])
      by (unfold urlopen in Hopen; injection Hopen as _ <-; reflexivity).
    subst w0. unfold mixed_items in Hparse.
    destruct (String.eqb xml_data mixed_xml); [|discriminate].
    injection Hparse as Hparse. split; [exact Hparse|].
    assert (Hcases : forall b e a,
               mixed_entries = (b ++ e :: a)%list ->
               text_or_empty (entry_link e) = rss_item_url mixed_item ->
               b = firstn 2 mixed_entries
               /\ entry_link e = Some (rss_item_url mixed_item)).
    { intros b e a Hb He. unfold mixed_entries in Hb.
      destruct b as [|b0 [|b1 [|b2 [|b3 [|b4 b]]]]]; cbn in Hb;
        try (destruct b; discriminate);
        injection Hb as <-; intros; subst;
          try (vm_compute in He; discriminate).
      split; reflexivity. }
    destruct (Hcases before entry after Hparse (eq_sym Hlink)) as [-> Hl].
    split; [exact Hl|]. vm_compute. reflexivity.
Defined.

(* ===================================================================== *)
(** * Further properties of the numeric normaliser *)
(* ===================================================================== *)

(** ** Cleaning a text *)

Section CleaningFacts.

Lemma prefix_nil (s : string) : String.prefix "" s = true.
Proof. destruct s; reflexivity. Qed.

Lemma replace_char (c : ascii) (s : string) :
  replace s (String c "") "" = sfilter (fun a => negb (ascii_eqb a c)) s.
Proof.
  unfold replace. induction s as [|a r IH]; [reflexivity|].
  cbn [replace_from sfilter String.prefix].
  destruct (Ascii.ascii_dec c a) as [<-|Hne].
  - rewrite prefix_nil. unfold ascii_eqb. rewrite Ascii.eqb_refl.
    cbn [negb len String.length Nat.sub append]. exact IH.
  - unfold ascii_eqb.
    destruct (Ascii.eqb a c) eqn:E; [apply Ascii.eqb_eq in E; congruence|].
    cbn [negb]. rewrite IH. reflexivity.
Qed.

Lemma sfilter_app (p : ascii -> bool) (a b : string) :
  sfilter p (a ++ b) = sfilter p a ++ sfilter p b.
Proof.
  induction a as [|c a IH]; [reflexivity|]. cbn [append sfilter].
  destruct (p c); cbn [append]; rewrite IH; reflexivity.
Qed.

Lemma sfilter_all (p : ascii -> bool) (s : string) :
  all_chars p s = true -> sfilter p s = s.
Proof.
  induction s as [|c r IH]; [reflexivity|]. cbn [all_chars sfilter].
  intros H. apply andb_true_iff in H as [-> H]. rewrite IH by exact H.
  reflexivity.
Qed.

Lemma all_chars_sfilter (p q : ascii -> bool) (s : string) :
  all_chars p s = true -> all_chars p (sfilter q s) = true.
Proof.
  induction s as [|c r IH]; [reflexivity|]. cbn [all_chars sfilter].
  intros H. apply andb_true_iff in H as [Hc H].
  destruct (q c); [cbn [all_chars]; rewrite Hc|]; auto.
Qed.

Lemma all_chars_weaken (p q : ascii -> bool) (s : string) :
  (forall c, p c = true -> q c = true) ->
  all_chars p s = true -> all_chars q s = true.
Proof.
  intros Hpq. induction s as [|c r IH]; [reflexivity|]. cbn [all_chars].
  intros H. apply andb_true_iff in H as [Hc H].
  rewrite (Hpq _ Hc), IH by exact H. reflexivity.
Qed.

Lemma lstrip_by_none (p : ascii -> bool) (s : string) :
  all_chars (fun c => negb (p c)) s = true -> lstrip_by p s = s.
Proof.
  destruct s as [|c r]; [reflexivity|]. cbn [all_chars lstrip_by].
  intros H. apply andb_true_iff in H as [Hc _].
  apply negb_true_iff in Hc. rewrite Hc. reflexivity.
Qed.

Lemma rstrip_by_none (p : ascii -> bool) (s : string) :
  all_chars (fun c => negb (p c)) s = true -> rstrip_by p s = s.
Proof.
  induction s as [|c r IH]; [reflexivity|]. cbn [all_chars rstrip_by].
  intros H. apply andb_true_iff in H as [Hc H].
  apply negb_true_iff in Hc. rewrite IH by exact H.
  destruct r; [rewrite Hc|]; reflexivity.
Qed.

Lemma rstrip_by_keep (p : ascii -> bool) (s : string) (c : ascii) :
  p c = false -> rstrip_by p (s ++ String c "") = s ++ String c "".
Proof.
  intros Hc. induction s as [|a r IH]; cbn [append rstrip_by].
  - rewrite Hc. reflexivity.
  - rewrite IH. destruct r; reflexivity.
Qed.

Lemma rstrip_by_drop (p : ascii -> bool) (s ws : string) :
  all_chars p ws = true -> rstrip_by p (s ++ ws) = rstrip_by p s.
Proof.
  intros Hws. induction s as [|a r IH]; cbn [append].
  - induction ws as [|c ws IHw]; [reflexivity|].
    cbn [all_chars] in Hws. apply andb_true_iff in Hws as [Hc Hws].
    cbn [rstrip_by]. rewrite (IHw Hws). cbn [rstrip_by]. rewrite Hc. reflexivity.
  - cbn [rstrip_by]. rewrite IH. reflexivity.
Qed.

Lemma lstrip_by_drop (p : ascii -> bool) (ws s : string) :
  all_chars p ws = true -> lstrip_by p (ws ++ s) = lstrip_by p s.
Proof.
  induction ws as [|c ws IH]; [reflexivity|]. cbn [all_chars append lstrip_by].
  intros H. apply andb_true_iff in H as [-> H]. auto.
Qed.

Lemma strip_by_padded (p : ascii -> bool) (ws1 s ws2 : string) :
  all_chars p ws1 = true -> all_chars p ws2 = true ->
  rstrip_by p (lstrip_by p (ws1 ++ s ++ ws2)) = rstrip_by p (lstrip_by p s).
Proof.
  intros H1 H2. rewrite lstrip_by_drop by exact H1.
  induction s as [|c r IH]; cbn [append].
  - rewrite <- (append_nil_r ws2), lstrip_by_drop by exact H2. reflexivity.
  - cbn [lstrip_by]. destruct (p c); [exact IH|].
    change (String c (r ++ ws2)) with (String c r ++ ws2).
    apply rstrip_by_drop. exact H2.
Qed.
End CleaningFacts.

Lemma cleaned_filter (s : string) :
  cleaned_text s
  = strip (sfilter (fun a => negb (ascii_eqb a ","))
                   (sfilter (fun a => negb (ascii_eqb a "P")) s)).
Proof. unfold cleaned_text. rewrite !replace_char. reflexivity. Qed.

(** The result depends on the cleaned text only. *)
Lemma parse_negative_cleaned (s t : string) :
  cleaned_text s = cleaned_text t -> parse_negative s = parse_negative t.
Proof.
  assert (Hempty : forall u, cleaned_text u = "" -> parse_negative u = Ok fzero).
  { intros u Hu. unfold parse_negative. destruct (negb (truthy u)); [reflexivity|].
    cbv zeta. fold (cleaned_text u). rewrite Hu. reflexivity. }
  intros H. destruct s as [|a s]; [|destruct t as [|b t]].
  - symmetry. apply Hempty. rewrite <- H. reflexivity.
  - apply Hempty. rewrite H. reflexivity.
  - unfold parse_negative. cbn [truthy negb]. cbv zeta.
    fold (cleaned_text (String a s)). fold (cleaned_text (String b t)).
    rewrite H. reflexivity.
Qed.

Lemma space_not_sign (c : ascii) :
  is_space c = true ->
  negb (ascii_eqb c "P") = true /\ negb (ascii_eqb c ",") = true.
Proof.
  destruct c as [[] [] [] [] [] [] [] []]; vm_compute; intros H;
    try discriminate; split; reflexivity.
Qed.



(** ** Amounts in accounting parentheses *)

Section SignFacts.
Variable n : string.
Hypothesis plain : all_chars amount_char n = true.

Abbreviation digits := (sfilter (fun a => negb (ascii_eqb a ",")) n).

Lemma amount_char_spec (c : ascii) :
  amount_char c = true ->
  is_space c = false /\ char_in c "()" = false /\ ascii_eqb c "P" = false
  /\ ascii_eqb c "(" = false.
Proof.
  unfold amount_char. cbn [char_in]. intros H.
  apply negb_true_iff, orb_false_iff in H as [Hs H].
  apply orb_false_iff in H as [HP H]. apply orb_false_iff in H as [Hl H].
  apply orb_false_iff in H as [Hr _]. rewrite Hs, HP, Hl, Hr. auto.
Qed.

Lemma amount_no_P : sfilter (fun a => negb (ascii_eqb a "P")) n = n.
Proof.
  apply sfilter_all. eapply all_chars_weaken; [|exact plain].
  intros c Hc. apply amount_char_spec in Hc as (_ & _ & -> & _). reflexivity.
Qed.

Lemma digits_plain : all_chars amount_char digits = true.
Proof. apply all_chars_sfilter. exact plain. Qed.

Lemma digits_no_space : all_chars (fun c => negb (is_space c)) digits = true.
Proof.
  eapply all_chars_weaken; [|exact digits_plain].
  intros c Hc. apply amount_char_spec in Hc as (-> & _). reflexivity.
Qed.

Lemma digits_no_paren :
  all_chars (fun c => negb (char_in c "()")) digits = true.
Proof.
  eapply all_chars_weaken; [|exact digits_plain].
  intros c Hc. apply amount_char_spec in Hc as (_ & -> & _). reflexivity.
Qed.

Lemma cleaned_amount : cleaned_text n = digits.
Proof.
  rewrite cleaned_filter, amount_no_P. unfold strip.
  rewrite lstrip_by_none, rstrip_by_none by exact digits_no_space. reflexivity.
Qed.

Lemma cleaned_parenthesised : cleaned_text ("(" ++ n ++ ")") = "(" ++ digits ++ ")".
Proof.
  rewrite cleaned_filter, !sfilter_app, amount_no_P.
  cbn [sfilter ascii_eqb Ascii.eqb Bool.eqb negb append]. unfold strip.
  cbn [lstrip_by is_space]. 
  change (String "(" (digits ++ ")")) with (String "(" digits ++ ")").
  replace (lstrip_by is_space (String "(" digits ++ ")"))
    with (String "(" digits ++ ")") by reflexivity.
  apply rstrip_by_keep. reflexivity.
Qed.

Lemma endswith_paren (s : string) : endswith (s ++ ")") ")" = true.
Proof.
  unfold endswith.
  assert (Hlen : len (s ++ ")") = S (len s)).
  { unfold len. induction s as [|c r IH]; [reflexivity|].
    cbn [append String.length]. rewrite IH. reflexivity. }
  rewrite Hlen. clear Hlen. cbn [len String.length Nat.leb Nat.sub andb].
  rewrite Nat.sub_0_r.
  assert (Hdrop : drop (String.length s) (s ++ ")") = ")").
  { induction s as [|c r IH]; [reflexivity|]. exact IH. }
  unfold len. rewrite Hdrop. reflexivity.
Qed.

Lemma strip_parens :
  truthy digits = true -> strip_chars ("(" ++ digits ++ ")") "()" = digits.
Proof.
  intros Ht. unfold strip_chars.
  pose proof digits_no_paren as Hp. revert Hp.
  set (p := fun c => char_in c "()").
  destruct digits as [|c r] eqn:Hd; [discriminate|]. intros Hp.
  cbn [all_chars] in Hp. apply andb_true_iff in Hp as [Hc Hr].
  apply negb_true_iff in Hc.
  cbn [append lstrip_by]. replace (p "("%char) with true by reflexivity.
  change (p c) with (char_in c "()"). rewrite Hc.
  change (String c (r ++ ")")) with (String c r ++ ")").
  rewrite rstrip_by_drop by reflexivity.
  apply rstrip_by_none. subst p. cbn [all_chars]. rewrite Hc, Hr. reflexivity.
Qed.

Lemma amount_value (x : float) :
  py_float (replace n "," "") = Some x ->
  parse_negative n = Ok x
  /\ parse_negative ("(" ++ n ++ ")") = Ok (fneg x).
Proof.
  rewrite replace_char. intros Hx.
  assert (Ht : truthy digits = true).
  { destruct digits; [vm_compute in Hx; discriminate | reflexivity]. }
  assert (Hn : truthy n = true).
  { destruct n; [discriminate Ht | reflexivity]. }
  split.
  - unfold parse_negative. rewrite Hn. cbn [negb]. cbv zeta.
    fold (cleaned_text n). rewrite cleaned_amount.
    assert (Hstart : startswith digits "(" = false).
    { pose proof digits_plain as Hp. destruct digits as [|c r]; [discriminate|].
      cbn [all_chars] in Hp. apply andb_true_iff in Hp as [Hc _].
      apply amount_char_spec in Hc as (_ & _ & _ & Hc).
      unfold startswith. cbn [String.prefix].
      destruct (Ascii.ascii_dec "(" c) as [<-|]; [discriminate Hc | reflexivity]. }
    rewrite Hstart, Hx. reflexivity.
  - unfold parse_negative. cbn [append truthy negb]. cbv zeta.
    change (String "(" (n ++ ")")) with ("(" ++ n ++ ")").
    fold (cleaned_text ("(" ++ n ++ ")")). rewrite cleaned_parenthesised.
    change ("(" ++ digits ++ ")") with (String "(" digits ++ ")") at 2.
    rewrite endswith_paren.
    assert (Hstart : startswith ("(" ++ digits ++ ")") "(" = true).
    { unfold startswith. cbn [append String.prefix].
      destruct (Ascii.ascii_dec "(" "(") as [_|Hne]; [apply prefix_nil|congruence]. }
    rewrite Hstart. cbn [andb]. rewrite (strip_parens Ht), Ht, Hx. reflexivity.
Qed.
End SignFacts.



(* ===================================================================== *)
(** * Further properties of the discovery *)
(* ===================================================================== *)

(** ** Requests and delays of the fetch client *)

Section BoundFacts.
Variable net : nat -> string -> result string.
Variable retries : nat.
Variable url : string.

Lemma backoff_cons (first j : nat) :
  backoff first (S j) = 2 ^ Z.of_nat first :: backoff (S first) j.
Proof. reflexivity. Qed.

Lemma fetch_loop_bounded (n : nat) :
  forall (first : nat) (w : world),
    let run := fetch_loop net retries url (seq first n) w in
    exists k j,
      (k <= n)%nat /\ (j = k \/ S j = k)
      /\ requested run.2 = (requested w ++ repeat url k)%list
      /\ slept run.2 = (slept w ++ backoff first j)%list
      /\ (forall body,
             run.1 = Ok body ->
             S j = k /\ net (length (requested w) + j)%nat url = Ok body).
Proof.
  induction n as [|n IH]; intros first w; cbn [seq fetch_loop].
  - exists 0%nat, 0%nat. unfold raise. cbn [fst snd]. rewrite !app_nil_r.
    split; [lia|]. split; [auto|]. split; [reflexivity|].
    split; [reflexivity|]. discriminate.
  - unfold urlopen.
    set (w1 := fun ev => mkWorld (requested w ++ [url])
                                 (slept w ++ [2 ^ Z.of_nat first])
                                 (logged w ++ [ev])).
    assert (Hnext : forall ev,
               let run := fetch_loop net retries url (seq (S first) n) (w1 ev) in
               exists k j,
                 (k <= S n)%nat /\ (j = k \/ S j = k)
                 /\ requested run.2 = (requested w ++ repeat url k)%list
                 /\ slept run.2 = (slept w ++ backoff first j)%list
                 /\ (forall body,
                        run.1 = Ok body ->
                        S j = k
                        /\ net (length (requested w) + j)%nat url = Ok body)).
    { intros ev. destruct (IH (S first) (w1 ev)) as (k & j & Hk & Hj & Hr & Hs & Hb).
      exists (S k), (S j). cbn [w1 requested slept] in Hr, Hs, Hb.
      split; [lia|]. split; [lia|]. split; [|split].
      - rewrite Hr, <- app_assoc. reflexivity.
      - rewrite Hs, <- app_assoc, backoff_cons. reflexivity.
      - intros body Hbody. destruct (Hb body Hbody) as [Hjk Hnet].
        split; [lia|]. rewrite length_app in Hnet. cbn [length] in Hnet.
        replace (length (requested w) + S j)%nat
          with (length (requested w) + 1 + j)%nat by lia. exact Hnet. }
    assert (Hstop : forall r : result string,
               (forall body, r = Ok body ->
                             net (length (requested w)) url = Ok body) ->
               let run := (r, mkWorld (requested w ++ [url]) (slept w) (logged w)) in
               exists k j,
                 (k <= S n)%nat /\ (j = k \/ S j = k)
                 /\ requested run.2 = (requested w ++ repeat url k)%list
                 /\ slept run.2 = (slept w ++ backoff first j)%list
                 /\ (forall body,
                        run.1 = Ok body ->
                        S j = k
                        /\ net (length (requested w) + j)%nat url = Ok body)).
    { intros r Hr. exists 1%nat, 0%nat. cbn. rewrite app_nil_r, Nat.add_0_r.
      repeat split; auto; lia. }
    destruct (net (length (requested w)) url) as [body|e] eqn:Hnet.
    + apply (Hstop (Ok body)). intros b Hb. exact Hb.
    + destruct e as [| | |status| | |msg];
        try (apply (Hstop (Raise _)); discriminate).
      * destruct (retryable status);
          [apply Hnext | apply (Hstop (Raise _)); discriminate].
      * apply Hnext.
Qed.
End BoundFacts.



(** ** The items of a crawl *)

Section StepFacts.
Variable net : nat -> string -> result string.
Variable retries : nat.
Variables start_month end_month : string.

(** What an iteration of the node loop does to the items and to the two
    sets: nothing is removed, and at most one item is added, for a page
    and a PDF that were not seen before and a month within the bounds. *)
Lemma node_step_items (link : list string) (c c' : crawl) (fl : flow)
      (w w' : world) :
  node_step net retries start_month end_month link c w = ((c', fl), w') ->
  seen_pdf_urls c ⊆ seen_pdf_urls c'
  /\ seen_node_urls c ⊆ seen_node_urls c'
  /\ (items_in_range c' = items_in_range c
      \/ exists target m node_html,
          ((site ++ group1 link) ∉ seen_node_urls c)
          /\ ((absolute target) ∉ seen_pdf_urls c)
          /\ (end_month <? m)%string = false
          /\ (m <? start_month)%string = false
          /\ items_in_range c'
             = (items_in_range c
                ++ [mkItem (absolute target) (site ++ group1 link) (Some m)
                           (item_title node_html)])%list
          /\ ((absolute target) ∈ seen_pdf_urls c')
          /\ ((site ++ group1 link) ∈ seen_node_urls c')).
Proof.
  unfold node_step. cbv zeta.
  generalize (site ++ group1 link). intros node_url.
  destruct (bool_decide (node_url ∈ seen_node_urls c)) eqn:Hnode.
  { unfold retS. intros H. injection H as <- _ _. auto. }
  apply bool_decide_eq_false in Hnode.
  unfold bindS, sleep, catch, bind, resolve_node. cbn [seen_pdf_urls].
  unfold bind.
  destruct (_fetch_with_retry net retries node_url _) as [[node_html|e] w1].
  2:{ unfold log, retS. intros H. injection H as <- _ _.
      cbn [seen_pdf_urls seen_node_urls items_in_range].
      split; [set_solver|]. split; [set_solver|]. auto. }
  destruct (select_pdf (find_pdf_urls node_html)) as [target|].
  2:{ unfold ret. intros H. injection H as <- _ _.
      cbn [seen_pdf_urls seen_node_urls items_in_range].
      split; [set_solver|]. split; [set_solver|]. auto. }
  destruct (bool_decide (absolute target ∈ seen_pdf_urls c)) eqn:Hpdf.
  { unfold ret. intros H. injection H as <- _ _.
    cbn [seen_pdf_urls seen_node_urls items_in_range].
    split; [set_solver|]. split; [set_solver|]. auto. }
  apply bool_decide_eq_false in Hpdf.
  destruct (archive_month_key (absolute target) node_html) as [[m|]|e].
  - unfold ret, lift, range_step.
    cbn [seen_pdf_urls seen_node_urls items_in_range stop_crawling].
    destruct (end_month <? m)%string eqn:Habove.
    + unfold retS. intros H. injection H as <- _ _.
      cbn [seen_pdf_urls seen_node_urls items_in_range].
      split; [set_solver|]. split; [set_solver|]. auto.
    + destruct (m <? start_month)%string eqn:Hbelow.
      * unfold bindS, log, retS. intros H. injection H as <- _ _.
        cbn [seen_pdf_urls seen_node_urls items_in_range].
        split; [set_solver|]. split; [set_solver|]. auto.
      * unfold retS. intros H. injection H as <- _ _.
        cbn [seen_pdf_urls seen_node_urls items_in_range].
        split; [set_solver|]. split; [set_solver|]. right.
        exists target, m, node_html.
        repeat (split; [assumption || reflexivity || set_solver|]).
        set_solver.
  - unfold ret. intros H. injection H as <- _ _.
    cbn [seen_pdf_urls seen_node_urls items_in_range].
    split; [set_solver|]. split; [set_solver|]. auto.
  - unfold raise, log, retS. intros H. injection H as <- _ _.
    cbn [seen_pdf_urls seen_node_urls items_in_range].
    split; [set_solver|]. split; [set_solver|]. auto.
Qed.

(** What every iteration of the node loop preserves holds when the crawl
    ends. *)
Lemma node_loop_invariant (I : crawl -> Prop) :
  (forall link c w,
      I c -> I (node_step net retries start_month end_month link c w).1.1) ->
  forall node_links c w,
    I c -> I (node_loop net retries start_month end_month node_links c w).1.
Proof.
  intros Hstep node_links.
  induction node_links as [|link rest IH]; intros c w Hc; cbn [node_loop];
    [exact Hc|].
  unfold bindS. specialize (Hstep link c w Hc).
  destruct (node_step net retries start_month end_month link c w)
    as [[c1 []] w1]; cbn [fst snd] in Hstep; [apply IH|]; exact Hstep.
Qed.

Lemma page_loop_invariant (I : crawl -> Prop) :
  (forall link c w,
      I c -> I (node_step net retries start_month end_month link c w).1.1) ->
  forall fuel page_num pages_crawled c w,
    I c ->
    I (page_loop net retries start_month end_month fuel page_num pages_crawled
                 c w).1.1.1.
Proof.
  intros Hstep fuel.
  induction fuel as [|fuel IH]; intros page_num pages_crawled c w Hc;
    cbn [page_loop]; (destruct (stop_crawling c); [exact Hc|]); [exact Hc|].
  unfold bindS, log, sleep, retS.
  destruct (catch _ _ _) as [[html_data|] w1]; [|exact Hc].
  destruct (findall P_node_link html_data) as [|link rest]; [exact Hc|].
  pose proof (node_loop_invariant I Hstep (link :: rest) c w1 Hc) as Hn.
  destruct (node_loop net retries start_month end_month (link :: rest) c w1)
    as [c1 w2].
  apply IH. exact Hn.
Qed.

Lemma crawl_invariant (I : crawl -> Prop) (fuel : nat) (w : world)
      (items : list discovery_item) :
  (forall link c w,
      I c -> I (node_step net retries start_month end_month link c w).1.1) ->
  I crawl0 ->
  (fetch_historical_archive_items net retries start_month end_month fuel w).1
  = Some items ->
  exists c, I c /\ items_in_range c = items.
Proof.
  intros Hstep H0. unfold fetch_historical_archive_items, bindS.
  pose proof (page_loop_invariant I Hstep fuel 0%nat 0%nat crawl0 w H0) as H.
  destruct (page_loop net retries start_month end_month fuel 0 0 crawl0 w)
    as [[[c' pages'] fin] wc].
  cbn [fst snd] in H. destruct fin; cbn; [|discriminate].
  intros E. injection E as <-. eauto.
Qed.

Lemma node_step_distinct (link : list string) (c : crawl) (w : world) :
  distinct_addresses c ->
  distinct_addresses (node_step net retries start_month end_month link c w).1.1.
Proof.
  intros (Hp & Hn & Hsp & Hsn).
  destruct (node_step net retries start_month end_month link c w)
    as [[c' fl] w'] eqn:Hstep.
  apply node_step_items in Hstep as (Hsubp & Hsubn & Hitems). cbn [fst].
  destruct Hitems
    as [Heq | (target & m & html & Hnew_n & Hnew_p & _ & _ & Heq & Hin_p & Hin_n)];
    unfold distinct_addresses; rewrite Heq.
  - split; [exact Hp|]. split; [exact Hn|].
    split; intros it Hit; [apply Hsubp, Hsp | apply Hsubn, Hsn]; exact Hit.
  - rewrite !map_app. cbn [map pdf_url rss_item_url].
    split; [|split; [|split]].
    + apply NoDup_app. split; [exact Hp|]. split; [|apply NoDup_singleton].
      intros u Hu Hu'. apply list_elem_of_singleton in Hu'. subst u.
      apply list_elem_of_fmap in Hu as (it & Hu & Hit).
      apply Hnew_p. rewrite Hu. apply Hsp, list_elem_of_In, Hit.
    + apply NoDup_app. split; [exact Hn|]. split; [|apply NoDup_singleton].
      intros u Hu Hu'. apply list_elem_of_singleton in Hu'. subst u.
      apply list_elem_of_fmap in Hu as (it & Hu & Hit).
      apply Hnew_n. rewrite Hu. apply Hsn, list_elem_of_In, Hit.
    + intros it Hit. apply in_app_or in Hit as [Hit | [<- | []]];
        [apply Hsubp, Hsp, Hit | exact Hin_p].
    + intros it Hit. apply in_app_or in Hit as [Hit | [<- | []]];
        [apply Hsubn, Hsn, Hit | exact Hin_n].
Qed.

Lemma node_step_within (link : list string) (c : crawl) (w : world) :
  Forall (within start_month end_month) (items_in_range c) ->
  Forall (within start_month end_month)
         (items_in_range
            (node_step net retries start_month end_month link c w).1.1).
Proof.
  intros Hc.
  destruct (node_step net retries start_month end_month link c w)
    as [[c' fl] w'] eqn:Hstep.
  apply node_step_items in Hstep as (_ & _ & Hitems). cbn [fst].
  destruct Hitems as [-> | (target & m & html & _ & _ & Ha & Hb & -> & _)];
    [exact Hc|].
  apply Forall_app. split; [exact Hc|]. constructor; [|constructor].
  exists m. auto.
Qed.

Lemma absolute_address (target : string) :
  startswith (absolute target) "http" = true.
Proof.
  unfold absolute. destruct (startswith target "http") eqn:E; [exact E|].
  reflexivity.
Qed.

Lemma node_step_addressed (link : list string) (c : crawl) (w : world) :
  Forall addressed (items_in_range c) ->
  Forall addressed
         (items_in_range
            (node_step net retries start_month end_month link c w).1.1).
Proof.
  intros Hc.
  destruct (node_step net retries start_month end_month link c w)
    as [[c' fl] w'] eqn:Hstep.
  apply node_step_items in Hstep as (_ & _ & Hitems). cbn [fst].
  destruct Hitems as [-> | (target & m & html & _ & _ & _ & _ & -> & _)];
    [exact Hc|].
  apply Forall_app. split; [exact Hc|]. constructor; [|constructor].
  split; [apply absolute_address | eexists; reflexivity].
Qed.
End StepFacts.

Lemma inverted_bounds_exclude (start_month end_month m : string) :
  (end_month <? start_month)%string = true ->
  (end_month <? m)%string = false ->
  (m <? start_month)%string = false -> False.
Proof.
  unfold String.ltb. intros Hinv Ha Hb.
  destruct (String.compare end_month start_month) eqn:E; try discriminate.
  destruct (String.compare end_month m) eqn:E1; try discriminate.
  - apply String.compare_eq_iff in E1. subst m. rewrite E in Hb. discriminate.
  - assert (E2 : String.compare m end_month = Lt).
    { rewrite String.compare_antisym, E1. reflexivity. }
    rewrite (string_compare_trans _ _ _ E2 E) in Hb. discriminate.
Qed.





(** ** Addresses, and feeds without a document *)

Section AddressFacts.
Variable net : nat -> string -> result string.
Variable retries : nat.

Lemma entry_pdf_absolute (rss_item_url pdf : string) (w w' : world) :
  entry_pdf net retries rss_item_url w = (Some pdf, w') ->
  startswith pdf "http" = true.
Proof.
  unfold entry_pdf, catch, bind.
  destruct (_fetch_with_retry net retries rss_item_url w) as [[html_data|e] w1].
  - destruct (select_pdf (find_pdf_urls html_data)) as [target|].
    + unfold ret. intros H. injection H as <- _. apply absolute_address.
    + unfold lift, log, ret. discriminate.
  - unfold bindS, log, retS. discriminate.
Qed.

Lemma passed_over_untitled (items : list rss_entry) (w : world) :
  Forall (fun entry =>
            is_summary_title (text_or_empty (entry_title entry)) = false)
         items ->
  passed_over net retries items w = Some w.
Proof.
  induction 1 as [|entry items Hentry _ IH]; cbn [passed_over]; [reflexivity|].
  rewrite Hentry. exact IH.
Qed.
End AddressFacts.





(* ===================================================================== *)
(** * Further properties of the column mapper *)
(* ===================================================================== *)

Section MapperFacts.

Lemma map_header_unmapped (i : nat) (text : string) (mapping : gmap string colval) :
  unmapped_of (map_header i text mapping)
  = (unmapped_of mapping ++ if unmatched text then [PStr text] else [])%list.
Proof.
  unfold unmatched, map_header, rule_hit, is_noise.
  destruct (truthy text); cbn [negb andb]; [|rewrite app_nil_r; reflexivity].
  destruct (existsb (String.eqb text) noise), (contains text "power factor"),
    (contains text "summary schedule"); cbn [orb andb negb];
    repeat match goal with
           | |- context [if ?b then _ else _] =>
               destruct b; cbn [orb andb negb];
               try (rewrite app_nil_r; unfold unmapped_of;
                    try rewrite lookup_insert_ne by discriminate; reflexivity)
           end;
    unfold unmapped_of at 1; rewrite lookup_insert_eq; reflexivity.
Qed.

Lemma map_headers_unmapped (normalized : list string) :
  forall (i : nat) (mapping : gmap string colval),
    unmapped_of (map_headers i normalized mapping)
    = (unmapped_of mapping
       ++ map PStr (List.filter unmatched normalized))%list.
Proof.
  induction normalized as [|text rest IH]; intros i mapping;
    cbn [map_headers List.filter map]; [rewrite app_nil_r; reflexivity|].
  rewrite IH, map_header_unmapped, <- app_assoc.
  destruct (unmatched text); reflexivity.
Qed.

(** What one header does to the entries other than [unmapped_headers]. *)
Lemma map_header_entry (num_cols i : nat) (text : string)
      (mapping : gmap string colval) :
  (i < num_cols)%nat ->
  map_Forall (column_entry num_cols) mapping ->
  map_Forall (column_entry num_cols) (map_header i text mapping).
Proof.
  intros Hi Hm.
  assert (Hset : forall key, In key rate_keys ->
            map_Forall (column_entry num_cols)
                       (<[key := Idx (Z.of_nat i)]> mapping)).
  { intros key Hkey. apply map_Forall_insert_2; [|exact Hm].
    cbn. split; [exact Hkey | lia]. }
  assert (Hun : map_Forall (column_entry num_cols)
                  (<["unmapped_headers"
                     := IdxList (unmapped_of mapping ++ [PStr text])]> mapping)).
  { apply map_Forall_insert_2; [|exact Hm]. cbn. split; [reflexivity|].
    apply Forall_app. split; [|constructor; [eauto|constructor]].
    unfold unmapped_of.
    destruct (mapping !! "unmapped_headers") as [[ix|l]|] eqn:E;
      try constructor.
    apply Hm in E. apply E. }
  unfold map_header.
  repeat match goal with
         | |- context [if ?b then _ else _] => destruct b
         end;
    try exact Hm; try exact Hun;
    apply Hset; unfold rate_keys; cbn [In]; tauto.
Qed.

Lemma map_headers_entry (num_cols : nat) (normalized : list string) :
  forall (i : nat) (mapping : gmap string colval),
    (i + length normalized <= num_cols)%nat ->
    map_Forall (column_entry num_cols) mapping ->
    map_Forall (column_entry num_cols) (map_headers i normalized mapping).
Proof.
  induction normalized as [|text rest IH]; intros i mapping Hlen Hm;
    cbn [map_headers]; [exact Hm|].
  cbn [length] in Hlen. apply IH; [lia|].
  apply map_header_entry; [lia | exact Hm].
Qed.

Lemma add_cells_length (num_cols : nat) (r : row) :
  forall (i : nat) (hs : list string),
    length (add_cells num_cols i r hs) = length hs.
Proof.
  induction r as [|c r IH]; intros i hs; cbn [add_cells]; [reflexivity|].
  rewrite IH. destruct (_ && _); [apply length_alter | reflexivity].
Qed.

Lemma header_strings_length (t : table) (num_cols : nat) :
  length (header_strings_of t num_cols) = num_cols.
Proof.
  unfold header_strings_of.
  assert (H : forall (rows : list row) (hs : list string),
             length (fold_left (fun hs r => add_cells num_cols 0 r hs) rows hs)
             = length hs).
  { induction rows as [|r rows IH]; intros hs; cbn [fold_left]; [reflexivity|].
    rewrite IH. apply add_cells_length. }
  rewrite H. apply repeat_length.
Qed.

Lemma column_map_entries (first : row) (rest : table) :
  map_Forall (column_entry (length first))
             (_build_column_index_map (first :: rest)).
Proof.
  unfold _build_column_index_map. destruct first as [|c first];
    [apply map_Forall_empty|].
  cbv zeta. apply map_headers_entry; [|apply map_Forall_empty].
  rewrite length_map, header_strings_length. lia.
Qed.
End MapperFacts.




(* ===================================================================== *)
(** * Further properties of the extraction *)
(* ===================================================================== *)

(** ** The rows in reading order *)

Section ReadingFacts.

Lemma plain_row_step (col_map : gmap string colval) (r : row) (st : extraction) :
  marker_row r = false -> bracket_row r = false ->
  row_step col_map r st = (st, true).
Proof.
  destruct r as [|c cells]; [reflexivity|]. cbn [marker_row bracket_row].
  intros Hm Hb. unfold row_step. cbn [map].
  destruct (negb (existsb cell_truthy (c :: cells))); [reflexivity|].
  rewrite Hm, Hb. reflexivity.
Qed.

Lemma before_marker_app (a b : list mapped_row) :
  before_marker (a ++ b)
  = if existsb is_marker_row a then before_marker a
    else (a ++ before_marker b)%list.
Proof.
  induction a as [|cr a IH]; cbn [app before_marker existsb]; [reflexivity|].
  destruct (is_marker_row cr); cbn [orb]; [reflexivity|].
  rewrite IH. destruct (existsb is_marker_row a); reflexivity.
Qed.

Lemma before_marker_none (a : list mapped_row) :
  existsb is_marker_row a = false -> before_marker a = a.
Proof.
  induction a as [|cr a IH]; cbn [before_marker existsb]; [reflexivity|].
  destruct (is_marker_row cr); cbn [orb]; [discriminate|].
  intros H. rewrite IH by exact H. reflexivity.
Qed.

Lemma rows_read_nil (st : extraction) : rows_read [] st st.
Proof.
  unfold rows_read. cbn. rewrite !app_nil_r, orb_false_r. auto.
Qed.

Lemma rows_read_app (a b : list mapped_row) (st st1 st2 : extraction) :
  stop_extracting st = false ->
  rows_read a st st1 ->
  (if stop_extracting st1 then st2 = st1 else rows_read b st1 st2) ->
  rows_read (a ++ b) st st2.
Proof.
  intros Hs (Hr & Hd & Hstop). rewrite Hs in Hstop. cbn [orb] in Hstop.
  unfold rows_read. rewrite before_marker_app, existsb_app, Hs, <- Hstop.
  cbn [orb]. destruct (stop_extracting st1) eqn:Hs1.
  - intros ->. rewrite Hs1. auto.
  - intros (Hr2 & Hd2 & Hstop2). cbn [orb] in Hstop2 |- *.
    rewrite (before_marker_none a) in Hr, Hd by congruence.
    rewrite !flat_map_app, !app_assoc, <- Hr, <- Hd. auto.
Qed.

Lemma row_loop_read (col_map : gmap string colval) (rows : list row) :
  forall st,
    stop_extracting st = false ->
    rows_read (map (pair col_map) rows) st (row_loop col_map rows st).
Proof.
  induction rows as [|r rows IH]; intros st Hs; cbn [row_loop map];
    [apply rows_read_nil|].
  unfold rows_read. cbn [before_marker existsb].
  change (is_marker_row (col_map, r)) with (marker_row r).
  destruct (marker_row r) eqn:Hm.
  - rewrite (marker_row_step col_map r st Hm).
    cbn [rates diags stop_extracting flat_map orb].
    rewrite !app_nil_r, orb_true_r. auto.
  - cbn [flat_map orb]. unfold row_rates at 1, row_diags at 1, row_outcome.
    cbn [fst snd].
    destruct (bracket_row r) eqn:Hb.
    + rewrite (bracket_row_step col_map r st Hb).
      destruct (parse_row col_map (map clean_cell r) (hd "" (map clean_cell r)))
        as [x|d];
        match goal with
        | |- context [row_loop col_map rows ?s] =>
            destruct (IH s Hs) as (Hr & Hd & Hstop)
        end;
        cbn [rates diags stop_extracting] in Hr, Hd, Hstop;
        rewrite Hr, Hd, Hstop, <- ?app_assoc; auto.
    + rewrite (plain_row_step col_map r st Hm Hb).
      destruct (IH st Hs) as (Hr & Hd & Hstop). cbn [app]. auto.
Qed.

Lemma table_loop_read (tables : list table) :
  forall st,
    stop_extracting st = false ->
    rows_read (flat_map table_rows tables) st (table_loop tables st).
Proof.
  induction tables as [|t tables IH]; intros st Hs; cbn [table_loop flat_map];
    [apply rows_read_nil|].
  rewrite Hs. apply (rows_read_app _ _ st (table_step t st)); [exact Hs| |].
  - unfold table_step, table_rows.
    destruct (row_loop_read (_build_column_index_map t) t
                (with_col_map (_build_column_index_map t) st) Hs)
      as (Hr & Hd & Hstop).
    split; [exact Hr|]. split; [exact Hd | exact Hstop].
  - destruct (stop_extracting (table_step t st)) eqn:Hs1.
    + apply table_loop_stopped. exact Hs1.
    + apply IH. exact Hs1.
Qed.

Lemma pdf_page_loop_read (pages : pdf) :
  forall st,
    stop_extracting st = false ->
    rows_read (document_rows pages) st (pdf_page_loop pages st).
Proof.
  unfold document_rows.
  induction pages as [|tables pages IH]; intros st Hs;
    cbn [pdf_page_loop flat_map]; [apply rows_read_nil|].
  rewrite Hs. apply (rows_read_app _ _ st (table_loop tables st)); [exact Hs| |].
  - apply table_loop_read. exact Hs.
  - destruct (stop_extracting (table_loop tables st)) eqn:Hs1.
    + apply pdf_page_loop_stopped. exact Hs1.
    + apply IH. exact Hs1.
Qed.
End ReadingFacts.


(** ** Pages read one after the other *)

Section FrameFacts.

Lemma row_loop_grown (col_map : gmap string colval) (rows : list row) :
  forall st base,
    exists new,
      rates (row_loop col_map rows st) = (rates st ++ new)%list
      /\ rates (row_loop col_map rows base) = (rates base ++ new)%list
      /\ (stop_extracting st = stop_extracting base ->
          stop_extracting (row_loop col_map rows st)
          = stop_extracting (row_loop col_map rows base)).
Proof.
  induction rows as [|r rows IH]; intros st base; cbn [row_loop].
  - exists []. rewrite !app_nil_r. auto.
  - unfold row_step.
    destruct (map clean_cell r) as [|first rest];
      [apply IH|].
    destruct (negb (existsb cell_truthy r)); [apply IH|].
    destruct (is_marker first).
    { exists []. cbn [rates stop_extracting]. rewrite !app_nil_r. auto. }
    destruct (is_bracket first); [|apply IH].
    destruct (parse_row col_map (first :: rest) first) as [x|d].
    + destruct (IH (mkExtraction (rates st ++ [x]) (last_col_map st) (diags st)
                                 (stop_extracting st))
                   (mkExtraction (rates base ++ [x]) (last_col_map base)
                                 (diags base) (stop_extracting base)))
        as (new & H1 & H2 & H3).
      exists (x :: new). cbn [rates stop_extracting] in *.
      rewrite H1, H2, <- !app_assoc. auto.
    + destruct (IH (mkExtraction (rates st) (last_col_map st) (diags st ++ [d])
                                 (stop_extracting st))
                   (mkExtraction (rates base) (last_col_map base)
                                 (diags base ++ [d]) (stop_extracting base)))
        as (new & H1 & H2 & H3).
      exists new. auto.
Qed.

Lemma table_loop_grown (tables : list table) :
  forall st base,
    stop_extracting st = stop_extracting base ->
    exists new,
      rates (table_loop tables st) = (rates st ++ new)%list
      /\ rates (table_loop tables base) = (rates base ++ new)%list
      /\ stop_extracting (table_loop tables st)
         = stop_extracting (table_loop tables base).
Proof.
  induction tables as [|t tables IH]; intros st base Hs; cbn [table_loop].
  - exists []. rewrite !app_nil_r. auto.
  - rewrite <- Hs. destruct (stop_extracting st) eqn:Hst.
    + exists []. rewrite !app_nil_r. rewrite Hst. auto.
    + unfold table_step.
      destruct (row_loop_grown (_build_column_index_map t) t
                  (with_col_map (_build_column_index_map t) st)
                  (with_col_map (_build_column_index_map t) base))
        as (new1 & H1 & H2 & H3).
      assert (Hs' : stop_extracting (with_col_map (_build_column_index_map t) st)
                    = stop_extracting
                        (with_col_map (_build_column_index_map t) base))
        by (cbn [with_col_map stop_extracting]; congruence).
      destruct (IH _ _ (H3 Hs')) as (new2 & G1 & G2 & G3).
      exists (new1 ++ new2)%list. cbn [with_col_map rates] in H1, H2.
      rewrite G1, G2, H1, H2, <- !app_assoc. auto.
Qed.

Lemma pdf_page_loop_grown (pages : pdf) :
  forall st base,
    stop_extracting st = stop_extracting base ->
    exists new,
      rates (pdf_page_loop pages st) = (rates st ++ new)%list
      /\ rates (pdf_page_loop pages base) = (rates base ++ new)%list
      /\ stop_extracting (pdf_page_loop pages st)
         = stop_extracting (pdf_page_loop pages base).
Proof.
  induction pages as [|tables pages IH]; intros st base Hs; cbn [pdf_page_loop].
  - exists []. rewrite !app_nil_r. auto.
  - rewrite <- Hs. destruct (stop_extracting st) eqn:Hst.
    + exists []. rewrite !app_nil_r. rewrite Hst. auto.
    + rewrite <- Hst in Hs.
      destruct (table_loop_grown tables st base Hs) as (new1 & H1 & H2 & H3).
      destruct (IH _ _ H3) as (new2 & G1 & G2 & G3).
      exists (new1 ++ new2)%list.
      rewrite G1, G2, H1, H2, <- !app_assoc. auto.
Qed.
End FrameFacts.


(** ** The log records *)

Section DiagFacts.

Lemma column_map_charges (t : table) : charges_at_columns (_build_column_index_map t).
Proof.
  intros k v Hk Hv. destruct t as [|first rest]; [discriminate|].
  apply column_map_entries in Hv. destruct v as [i|l]; cbn in Hv.
  - exists i. split; [reflexivity | lia].
  - destruct Hv as [-> _]. exfalso. unfold rate_keys in Hk. cbn [In] in Hk.
    repeat (destruct Hk as [Hk|Hk]; [discriminate|]). exact Hk.
Qed.

Variable col_map : gmap string colval.
Hypothesis columns : charges_at_columns col_map.
Variable clean_row : list string.

Lemma val_value_error (key : string) (is_percent : bool) (e : exn) :
  In key rate_keys ->
  _val col_map clean_row key is_percent = Raise e -> e = ValueError.
Proof.
  intros Hkey. unfold _val.
  destruct (col_map !! key) as [v|] eqn:Hv; cbn [default id from_option].
  - destruct (columns key v Hkey Hv) as (i & -> & Hi). cbv beta iota.
    destruct ((i =? -1) || (width clean_row <=? i)) eqn:Hout; [discriminate|].
    apply orb_false_iff in Hout as [_ Hlt]. apply Z.leb_gt in Hlt.
    apply cell_value_in_range. lia.
  - cbn. discriminate.
Qed.

Lemma build_rate_value_error (first : string) (e : exn) :
  build_rate col_map clean_row first = Raise e -> e = ValueError.
Proof.
  unfold build_rate.
  assert (Hval : forall key p e0,
             In key rate_keys ->
             _val col_map clean_row key p = Raise e0 ->
             (Raise e0 : result (diag + rate)) = Raise e ->
             e = ValueError).
  { intros key p e0 Hk Hv H. injection H as <-. eapply val_value_error; eauto. }
  repeat match goal with
         | |- context [rbind (_val ?m ?r ?k ?p) _] =>
             let E := fresh "E" in
             destruct (_val m r k p) eqn:E; cbn [rbind];
             [|apply (Hval k p _); [unfold rate_keys; cbn [In]; tauto | exact E]]
         | |- context [if ?b then _ else _] => destruct b; [discriminate|]
         | |- context [let '(_, _) := ?x in _] => destruct x
         end.
  discriminate.
Qed.

Lemma build_rate_gate (first : string) (d : diag) :
  build_rate col_map clean_row first = Ok (inl d) -> justified d.
Proof.
  unfold build_rate.
  destruct (_val col_map clean_row "generation_charge" false) as [gen|];
    cbn [rbind]; [|discriminate].
  destruct (_val col_map clean_row "distribution_charge" false) as [dist|];
    cbn [rbind]; [|discriminate].
  destruct (_val col_map clean_row "system_loss_charge" false) as [sys_loss|];
    cbn [rbind]; [|discriminate].
  destruct (feq gen fzero || feq dist fzero || feq sys_loss fzero) eqn:Hgate.
  - intros H. injection H as <-. exact Hgate.
  - destruct (bracket_bounds first).
    repeat match goal with
           | |- context [rbind (_val ?m ?r ?k ?p) _] =>
               destruct (_val m r k p); cbn [rbind]; [|discriminate]
           end.
    discriminate.
Qed.

Lemma parse_row_justified (first : string) (d : diag) :
  parse_row col_map clean_row first = Reject d -> justified d.
Proof.
  unfold parse_row. destruct (missing_keys col_map) as [|k ks] eqn:Hm.
  - destruct (build_rate col_map clean_row first) as [[d'|x]|e] eqn:Hb;
      intros H; try discriminate; injection H as <-.
    + eapply build_rate_gate. exact Hb.
    + cbn [justified]. eapply build_rate_value_error. exact Hb.
  - intros H. injection H as <-. cbn [justified]. rewrite Hm.
    split; [discriminate|reflexivity].
Qed.
End DiagFacts.

Lemma row_loop_justified (col_map : gmap string colval) :
  charges_at_columns col_map ->
  forall rows st,
    Forall justified (diags st) ->
    Forall justified (diags (row_loop col_map rows st)).
Proof.
  intros Hc rows. induction rows as [|r rows IH]; intros st Hst; cbn [row_loop];
    [exact Hst|].
  destruct (row_step_effect col_map r st)
    as [| |clean_row first x Hx|clean_row first d Hd];
    cbn [diags]; try (apply IH; cbn [diags]); try exact Hst.
  apply Forall_app. split; [exact Hst|]. constructor; [|constructor].
  eapply parse_row_justified; eassumption.
Qed.

Lemma table_loop_justified (tables : list table) :
  forall st,
    Forall justified (diags st) -> Forall justified (diags (table_loop tables st)).
Proof.
  induction tables as [|t tables IH]; intros st Hst; cbn [table_loop];
    [exact Hst|].
  destruct (stop_extracting st); [exact Hst|].
  apply IH. unfold table_step. apply row_loop_justified;
    [apply column_map_charges | exact Hst].
Qed.

Lemma pdf_page_loop_justified (pages : pdf) :
  forall st,
    Forall justified (diags st) ->
    Forall justified (diags (pdf_page_loop pages st)).
Proof.
  induction pages as [|tables pages IH]; intros st Hst; cbn [pdf_page_loop];
    [exact Hst|].
  destruct (stop_extracting st); [exact Hst|].
  apply IH, table_loop_justified, Hst.
Qed.

